(** * txtpng: the caption renderer of the subtitle image generator

    A shallow embedding of [processFile], [generateImage] and the settings
    handlers of the page component, together with the properties of the
    section splitter, the line wrapper, the title/content classifier, the
    canvas painter, the batch loop and the settings fallback. *)

From Stdlib Require Import Strings.String Strings.Ascii.
From Stdlib Require Import List NArith ZArith Lia Bool Arith.
Import ListNotations.

Set Implicit Arguments.

(** ** JavaScript strings

    A JavaScript string is a sequence of UTF-16 code units; [length],
    [split('')], [includes], [replace] and [trim] all work on code units. *)

Module JS.

Definition char := N.
Definition jsstring := list char.

(** Source literals are written in the file as UTF-8; [js] re-encodes such a
    literal as the UTF-16 code units the engine sees. *)
Fixpoint utf16 (bytes : list N) : jsstring :=
  match bytes with
  | [] => []
  | b0 :: r0 =>
      if (b0 <? 0x80)%N then b0 :: utf16 r0
      else if (b0 <? 0xE0)%N then
        match r0 with
        | b1 :: r1 =>
            N.lor (N.shiftl (N.land b0 0x1F) 6) (N.land b1 0x3F) :: utf16 r1
        | _ => []
        end
      else if (b0 <? 0xF0)%N then
        match r0 with
        | b1 :: b2 :: r2 =>
            N.lor (N.shiftl (N.land b0 0x0F) 12)
              (N.lor (N.shiftl (N.land b1 0x3F) 6) (N.land b2 0x3F)) :: utf16 r2
        | _ => []
        end
      else
        match r0 with
        | b1 :: b2 :: b3 :: r3 =>
            let cp :=
              N.lor (N.shiftl (N.land b0 0x07) 18)
                (N.lor (N.shiftl (N.land b1 0x3F) 12)
                   (N.lor (N.shiftl (N.land b2 0x3F) 6) (N.land b3 0x3F))) in
            let v := (cp - 0x10000)%N in
            (0xD800 + N.shiftr v 10)%N :: (0xDC00 + N.land v 0x3FF)%N :: utf16 r3
        | _ => []
        end
  end.

Definition js (s : string) : jsstring :=
  utf16 (map N_of_ascii (list_ascii_of_string s)).

Definition hyphen : char := 0x2D%N.
Definition newline : char := 0x0A%N.

(** Truthiness of a string: non-empty. *)
Definition truthy (s : jsstring) : bool :=
  match s with [] => false | _ :: _ => true end.

(** WhiteSpace and LineTerminator code points stripped by [trim] and skipped
    by [parseInt]. *)
Definition isWhiteSpace (c : char) : bool :=
  ((0x09 <=? c) && (c <=? 0x0D) || (c =? 0x20) || (c =? 0xA0) || (c =? 0x1680)
   || (0x2000 <=? c) && (c <=? 0x200A) || (c =? 0x2028) || (c =? 0x2029)
   || (c =? 0x202F) || (c =? 0x205F) || (c =? 0x3000) || (c =? 0xFEFF))%N.

Fixpoint trimStart (s : jsstring) : jsstring :=
  match s with
  | [] => []
  | c :: tl => if isWhiteSpace c then trimStart tl else s
  end.

Definition trimEnd (s : jsstring) : jsstring := rev (trimStart (rev s)).

Definition trim (s : jsstring) : jsstring := trimEnd (trimStart s).

(** [s.startsWith(p)] on code units. *)
Fixpoint startsWith (p s : jsstring) : bool :=
  match p, s with
  | [], _ => true
  | _ :: _, [] => false
  | a :: p', b :: s' => (a =? b)%N && startsWith p' s'
  end.

(** [s.includes(p)]. *)
Fixpoint includes (s p : jsstring) : bool :=
  startsWith p s ||
  match s with
  | [] => false
  | _ :: tl => includes tl p
  end.

(** [s.replace(p, '')] with a string pattern: the first occurrence of [p] is
    removed, and [s] is returned unchanged when there is none. *)
Fixpoint replaceEmpty (s p : jsstring) : jsstring :=
  if startsWith p s then skipn (length p) s
  else match s with
       | [] => []
       | c :: tl => c :: replaceEmpty tl p
       end.

(** [s.split(sep)] with a one-code-unit string separator. *)
Fixpoint split (sep : char) (s : jsstring) : list jsstring :=
  match s with
  | [] => [[]]
  | c :: tl =>
      if (c =? sep)%N then [] :: split sep tl
      else match split sep tl with
           | [] => [[c]]
           | h :: t => (c :: h) :: t
           end
  end.

(** *** [split] with the regular expression [/[-]{20,}/]

    [leadingHyphens s] is the length of the run of hyphens [s] starts with;
    the greedy quantifier [{20,}] matches at a position exactly when that run
    has 20 or more hyphens, and then consumes the whole run. *)
Fixpoint leadingHyphens (s : jsstring) : nat :=
  match s with
  | [] => 0
  | c :: tl => if (c =? hyphen)%N then S (leadingHyphens tl) else 0
  end.

Definition matchDelimiter (s : jsstring) : option nat :=
  let n := leadingHyphens s in
  if 20 <=? n then Some n else None.

(** The split loop of RegExp.prototype[Symbol.split]: [chunk] holds, in
    reverse, the code units since the end of the previous match (from [p] up
    to [q]), [rest] is the text from [q] on.  A match at [q] closes the chunk
    and resumes after the match; otherwise [q] advances by one.  Every round
    consumes at least one code unit of [rest], so [length rest] rounds
    suffice. *)
Fixpoint splitLoop (fuel : nat) (chunk rest : jsstring) : list jsstring :=
  match rest with
  | [] => [rev chunk]
  | c :: tl =>
      match fuel with
      | O => [rev chunk ++ rest]
      | S fuel' =>
          match matchDelimiter rest with
          | Some n => rev chunk :: splitLoop fuel' [] (skipn n rest)
          | None => splitLoop fuel' (c :: chunk) tl
          end
      end
  end.

Definition splitDelimiter (s : jsstring) : list jsstring :=
  splitLoop (length s) [] s.

End JS.

Import JS.

(** ** Errors

    A JavaScript computation either completes with a value or throws; a
    rejected promise that is awaited throws at the [await]. *)

Inductive result (A : Type) : Type :=
| Ok (a : A)
| Throw.
Arguments Ok {A} a.
Arguments Throw {A}.

Definition bind {A B} (r : result A) (k : A -> result B) : result B :=
  match r with
  | Ok a => k a
  | Throw => Throw
  end.

Notation "x <- r ;; k" := (bind r (fun x => k))
  (at level 100, r at next level, right associativity).

(** [for (let i = start; i < start + count; i++) body(i)] over a state. *)
Fixpoint forRange {St} (start count : nat) (body : nat -> St -> St) (st : St) : St :=
  match count with
  | O => st
  | S count' => forRange (S start) count' body (body start st)
  end.

(** ** Settings *)

Record Settings := {
  contentFontSize : Z;
  numberFontSize : Z;
  numberContentSpacing : Z;
  lineSpacing : Z
}.

(** The initial value of the [settings] state. *)
Definition defaultSettings : Settings :=
  {| contentFontSize := 62;
     numberFontSize := 41;
     numberContentSpacing := 55;
     lineSpacing := 70 |}.

(** *** [parseInt(value) || default]

    A Number is modelled as NaN or an integer; [-0] is [Num 0] (both are
    falsy) and the rounding of integers beyond 2^53 is not modelled. *)
Inductive Number :=
| NaN
| Num (z : Z).

Definition digitValue (radix : N) (c : char) : option N :=
  let v :=
    if ((0x30 <=? c) && (c <=? 0x39))%N then Some (c - 0x30)%N
    else if ((0x61 <=? c) && (c <=? 0x7A))%N then Some (c - 0x61 + 10)%N
    else if ((0x41 <=? c) && (c <=? 0x5A))%N then Some (c - 0x41 + 10)%N
    else None in
  match v with
  | Some d => if (d <? radix)%N then Some d else None
  | None => None
  end.

(** The longest prefix of [s] made of radix-[radix] digits. *)
Fixpoint digitsPrefix (radix : N) (s : jsstring) : list N :=
  match s with
  | [] => []
  | c :: tl =>
      match digitValue radix c with
      | Some d => d :: digitsPrefix radix tl
      | None => []
      end
  end.

Definition mathInt (radix : N) (digits : list N) : Z :=
  fold_left (fun acc d => acc * Z.of_N radix + Z.of_N d)%Z digits 0%Z.

(** [parseInt(string)] with no radix argument. *)
Definition parseInt (inputString : jsstring) : Number :=
  let S0 := trimStart inputString in
  let sign : Z :=
    match S0 with
    | c :: _ => if (c =? 0x2D)%N then (-1)%Z else 1%Z
    | [] => 1%Z
    end in
  let S1 :=
    match S0 with
    | c :: tl => if ((c =? 0x2B) || (c =? 0x2D))%N then tl else S0
    | [] => S0
    end in
  let '(R, S2) :=
    match S1 with
    | c0 :: c1 :: tl =>
        if ((c0 =? 0x30) && ((c1 =? 0x78) || (c1 =? 0x58)))%N then (16%N, tl)
        else (10%N, S1)
    | _ => (10%N, S1)
    end in
  match digitsPrefix R S2 with
  | [] => NaN
  | digits => Num (sign * mathInt R digits)
  end.

Definition toBoolean (n : Number) : bool :=
  match n with
  | NaN => false
  | Num z => negb (z =? 0)%Z
  end.

(** [n || d] with a numeric default [d]. *)
Definition orDefault (n : Number) (d : Z) : Z :=
  match n with
  | Num z => if toBoolean n then z else d
  | NaN => d
  end.

(** The four [onChange] handlers of the settings inputs; [value] is
    [e.target.value]. *)
Definition onChangeContentFontSize (value : jsstring) (settings : Settings) : Settings :=
  {| contentFontSize := orDefault (parseInt value) 62;
     numberFontSize := numberFontSize settings;
     numberContentSpacing := numberContentSpacing settings;
     lineSpacing := lineSpacing settings |}.

Definition onChangeNumberFontSize (value : jsstring) (settings : Settings) : Settings :=
  {| contentFontSize := contentFontSize settings;
     numberFontSize := orDefault (parseInt value) 41;
     numberContentSpacing := numberContentSpacing settings;
     lineSpacing := lineSpacing settings |}.

Definition onChangeNumberContentSpacing (value : jsstring) (settings : Settings) : Settings :=
  {| contentFontSize := contentFontSize settings;
     numberFontSize := numberFontSize settings;
     numberContentSpacing := orDefault (parseInt value) 55;
     lineSpacing := lineSpacing settings |}.

Definition onChangeLineSpacing (value : jsstring) (settings : Settings) : Settings :=
  {| contentFontSize := contentFontSize settings;
     numberFontSize := numberFontSize settings;
     numberContentSpacing := numberContentSpacing settings;
     lineSpacing := orDefault (parseInt value) 70 |}.

(** The settings fields, to speak about all four handlers at once. *)
Inductive Field :=
| ContentFontSize
| NumberFontSize
| NumberContentSpacing
| LineSpacing.

Definition Field_eq_dec (f g : Field) : {f = g} + {f <> g}.
Proof. decide equality. Defined.

Definition getField (f : Field) (settings : Settings) : Z :=
  match f with
  | ContentFontSize => contentFontSize settings
  | NumberFontSize => numberFontSize settings
  | NumberContentSpacing => numberContentSpacing settings
  | LineSpacing => lineSpacing settings
  end.

Definition onChange (f : Field) : jsstring -> Settings -> Settings :=
  match f with
  | ContentFontSize => onChangeContentFontSize
  | NumberFontSize => onChangeNumberFontSize
  | NumberContentSpacing => onChangeNumberContentSpacing
  | LineSpacing => onChangeLineSpacing
  end.

(** The documented default of a field. *)
Definition fieldDefault (f : Field) : Z := getField f defaultSettings.

(** ** The line wrapper (the text processing of [generateImage]) *)

(** The body of [words.forEach(char => ...)]: the state is the shared
    [wrappedLines] array and the [currentLine] accumulator. *)
Definition wrapChar (st : list jsstring * jsstring) (char : JS.char)
  : list jsstring * jsstring :=
  let '(wrappedLines, currentLine) := st in
  let testLine := currentLine ++ [char] in
  if 25 <? length testLine then (wrappedLines ++ [currentLine], [char])
  else (wrappedLines, testLine).

(** The body of [lines.forEach(line => ...)]; [line.split('')] yields the
    code units of [line] one by one. *)
Definition wrapLine (wrappedLines : list jsstring) (line : jsstring) : list jsstring :=
  if truthy (trim line) then
    let words := line in
    let '(wrappedLines, currentLine) := fold_left wrapChar words (wrappedLines, []) in
    if truthy currentLine then wrappedLines ++ [currentLine] else wrappedLines
  else wrappedLines.

(** [section.split('\n').filter(l => l.trim())]. *)
Definition logicalLines (section : jsstring) : list jsstring :=
  filter (fun l => truthy (trim l)) (split newline section).

Definition wrap (section : jsstring) : list jsstring :=
  fold_left wrapLine (logicalLines section) [].

(** ** The title/content classifier *)

Definition header : jsstring := js "창세기 1장".
Definition headerWithSpace : jsstring := js "창세기 1장 ".
Definition verseSuffix : jsstring := js "절".

(** The body of [wrappedLines.forEach(line => ...)]: the state is [title]
    and the [contentLines] array. *)
Definition classifyLine (st : jsstring * list jsstring) (line : jsstring)
  : jsstring * list jsstring :=
  let '(title, contentLines) := st in
  if includes line header && includes line verseSuffix then
    (trim (replaceEmpty (replaceEmpty line headerWithSpace) verseSuffix), contentLines)
  else if truthy (trim line) then (title, contentLines ++ [trim line])
  else (title, contentLines).

Definition classify (wrappedLines : list jsstring) : jsstring * list jsstring :=
  fold_left classifyLine wrappedLines ([], []).

(** ** The canvas *)

Module Canvas.

(** [`${size}px Arial`]. *)
Record Font := { px : Z; family : string }.

(** What a drawing call puts on the bitmap, with the drawing state that was
    in force when it was issued. *)
Inductive DrawOp :=
| ClearRect (x y w h : Z)
| StrokeText (text : jsstring) (x y : Z) (font : Font)
    (strokeStyle : string) (lineWidth : Z) (textBaseline : string)
| FillText (text : jsstring) (x y : Z) (font : Font)
    (fillStyle : string) (textBaseline : string).

(** A canvas with its 2D context: the drawing state and the calls drawn so
    far, oldest first. *)
Record t := {
  width : Z;
  height : Z;
  font : Font;
  strokeStyle : string;
  fillStyle : string;
  lineWidth : Z;
  textBaseline : string;
  drawn : list DrawOp
}.

(** [document.createElement('canvas')] followed by the two size
    assignments: an empty (transparent) bitmap and the default drawing
    state. *)
Definition create (w h : Z) : t :=
  {| width := w; height := h;
     font := {| px := 10; family := "sans-serif" |};
     strokeStyle := "#000000"; fillStyle := "#000000";
     lineWidth := 1; textBaseline := "alphabetic";
     drawn := [] |}.

Definition draw (op : DrawOp) (c : t) : t :=
  {| width := width c; height := height c; font := font c;
     strokeStyle := strokeStyle c; fillStyle := fillStyle c;
     lineWidth := lineWidth c; textBaseline := textBaseline c;
     drawn := drawn c ++ [op] |}.

(** [ctx.font = f].  An assignment that does not parse as a CSS font is
    ignored, and [`${size}px Arial`] parses exactly when the size is not
    negative. *)
Definition setFont (f : Font) (c : t) : t :=
  if (0 <=? px f)%Z then
    {| width := width c; height := height c; font := f;
       strokeStyle := strokeStyle c; fillStyle := fillStyle c;
       lineWidth := lineWidth c; textBaseline := textBaseline c;
       drawn := drawn c |}
  else c.

Definition setStrokeStyle (s : string) (c : t) : t :=
  {| width := width c; height := height c; font := font c;
     strokeStyle := s; fillStyle := fillStyle c;
     lineWidth := lineWidth c; textBaseline := textBaseline c;
     drawn := drawn c |}.

Definition setFillStyle (s : string) (c : t) : t :=
  {| width := width c; height := height c; font := font c;
     strokeStyle := strokeStyle c; fillStyle := s;
     lineWidth := lineWidth c; textBaseline := textBaseline c;
     drawn := drawn c |}.

Definition setLineWidth (w : Z) (c : t) : t :=
  {| width := width c; height := height c; font := font c;
     strokeStyle := strokeStyle c; fillStyle := fillStyle c;
     lineWidth := w; textBaseline := textBaseline c;
     drawn := drawn c |}.

Definition setTextBaseline (b : string) (c : t) : t :=
  {| width := width c; height := height c; font := font c;
     strokeStyle := strokeStyle c; fillStyle := fillStyle c;
     lineWidth := lineWidth c; textBaseline := b;
     drawn := drawn c |}.

Definition clearRect (x y w h : Z) (c : t) : t := draw (ClearRect x y w h) c.

Definition strokeText (text : jsstring) (x y : Z) (c : t) : t :=
  draw (StrokeText text x y (font c) (strokeStyle c) (lineWidth c) (textBaseline c)) c.

Definition fillText (text : jsstring) (x y : Z) (c : t) : t :=
  draw (FillText text x y (font c) (fillStyle c) (textBaseline c)) c.

(** The host's canvas implementation: whether [getContext('2d')] returns a
    context (it may return null), and the PNG encoder behind [toDataURL],
    which may throw. *)
Record Backend := {
  context2d : bool;
  toDataURL : t -> result jsstring
}.

End Canvas.

Definition arial (size : Z) : Canvas.Font :=
  {| Canvas.px := size; Canvas.family := "Arial" |}.

(** The drawing of the verse number ("절 번호 그리기"). *)
Definition paintTitle (title : jsstring) (currentSettings : Settings) (ctx : Canvas.t)
  : Canvas.t :=
  let yPos := 200%Z in
  if truthy title then
    let xPos := 190%Z in
    let ctx := Canvas.setFont (arial (numberFontSize currentSettings)) ctx in
    let ctx := Canvas.setStrokeStyle "white" ctx in
    let ctx := Canvas.setLineWidth 6 ctx in
    let ctx := Canvas.strokeText title xPos yPos ctx in
    let ctx := Canvas.setFillStyle "black" ctx in
    forRange 0 5 (fun i ctx => Canvas.fillText title xPos yPos ctx) ctx
  else ctx.

(** The body of [contentLines.forEach(line => ...)]: the state is the
    context and [yPos]. *)
Definition paintContentLine (currentSettings : Settings) (st : Canvas.t * Z)
  (line : jsstring) : Canvas.t * Z :=
  let '(ctx, yPos) := st in
  let xPos := 190%Z in
  let ctx := Canvas.setFont (arial (contentFontSize currentSettings)) ctx in
  let ctx := Canvas.setStrokeStyle "white" ctx in
  let ctx := Canvas.setLineWidth 6 ctx in
  let ctx := Canvas.strokeText line xPos yPos ctx in
  let ctx := Canvas.setFillStyle "black" ctx in
  let ctx := forRange 0 5 (fun i ctx => Canvas.fillText line xPos yPos ctx) ctx in
  (ctx, (yPos + lineSpacing currentSettings)%Z).

(** The drawing of the content ("내용 그리기"). *)
Definition paintContent (contentLines : list jsstring) (currentSettings : Settings)
  (ctx : Canvas.t) : Canvas.t :=
  let yPos := (200 + numberContentSpacing currentSettings)%Z in
  fst (fold_left (paintContentLine currentSettings) contentLines (ctx, yPos)).

(** The canvas of [generateImage] as it is when [toDataURL] is called. *)
Definition paintedCanvas (section : jsstring) (currentSettings : Settings) : Canvas.t :=
  let canvas := Canvas.create 1920 1080 in
  let ctx := Canvas.clearRect 0 0 (Canvas.width canvas) (Canvas.height canvas) canvas in
  let ctx := Canvas.setTextBaseline "top" ctx in
  let wrappedLines := wrap section in
  let '(title, contentLines) := classify wrappedLines in
  let ctx := paintTitle title currentSettings ctx in
  paintContent contentLines currentSettings ctx.

(** [generateImage]: a null context makes the first drawing call throw,
    which rejects the promise; so does a throwing [toDataURL]. *)
Definition generateImage (backend : Canvas.Backend) (section : jsstring) (index : nat)
  (currentSettings : Settings) : result jsstring :=
  if Canvas.context2d backend then
    Canvas.toDataURL backend (paintedCanvas section currentSettings)
  else Throw.

(** ** The page state and [processFile] *)

(** An uploaded file; [text] is the outcome of awaiting [file.text()]. *)
Record File := {
  name : string;
  text : result jsstring
}.

Record State := {
  file : option File;
  processing : bool;
  images : list jsstring;
  settings : Settings;
  alerts : list string
}.

Definition setProcessing (b : bool) (st : State) : State :=
  {| file := file st; processing := b; images := images st;
     settings := settings st; alerts := alerts st |}.

Definition setImages (imgs : list jsstring) (st : State) : State :=
  {| file := file st; processing := processing st; images := imgs;
     settings := settings st; alerts := alerts st |}.

Definition alert (msg : string) (st : State) : State :=
  {| file := file st; processing := processing st; images := images st;
     settings := settings st; alerts := alerts st ++ [msg] |}.

(** [text.split(/[-]{20,}/).filter(s => s.trim())]. *)
Definition sections (text : jsstring) : list jsstring :=
  filter (fun s => truthy (trim s)) (splitDelimiter text).

(** The [for] loop over the sections from index [i] on, [generatedImages]
    being the array pushed to; a throwing [generateImage] leaves the loop. *)
Fixpoint generateLoop (backend : Canvas.Backend) (settings : Settings)
  (sections : list jsstring) (i : nat) (generatedImages : list jsstring)
  : result (list jsstring) :=
  match sections with
  | [] => Ok generatedImages
  | section :: rest =>
      imageData <- generateImage backend section (i + 1) settings ;;
      generateLoop backend settings rest (S i) (generatedImages ++ [imageData])
  end.

(** The [try] block of [processFile]. *)
Definition tryProcess (backend : Canvas.Backend) (f : File) (settings : Settings)
  : result (list jsstring) :=
  text <- text f ;;
  generateLoop backend settings (sections text) 0 [].

Definition processFile (backend : Canvas.Backend) (st : State) : State :=
  match file st with
  | None => st
  | Some f =>
      let st := setProcessing true st in
      let st := setImages [] st in
      let st :=
        match tryProcess backend f (settings st) with
        | Ok generatedImages => setImages generatedImages st
        | Throw => alert "파일 처리 중 오류가 발생했습니다." st
        end in
      setProcessing false st
  end.

(** ** Downloads *)

Definition digitChar (d : N) : JS.char := (0x30 + d)%N.

(** The decimal digits of [n], most significant first, put in front of
    [acc]; none for 0.  Every round divides [n] by 10, so as many rounds as
    [n] has bits suffice. *)
Fixpoint digitsOf (fuel : nat) (n : N) (acc : jsstring) : jsstring :=
  match fuel with
  | O => acc
  | S fuel' =>
      if (n =? 0)%N then acc
      else digitsOf fuel' (n / 10)%N (digitChar (n mod 10)%N :: acc)
  end.

(** [String(z)] for an integer Number: its decimal digits.  This is what
    the engine prints for the integers that a Number holds exactly, those of
    absolute value up to 2^53; beyond, a Number is a rounded double and is
    printed with the shortest digits that read back to it. *)
Definition numberToString (z : Z) : jsstring :=
  match z with
  | Z0 => [0x30%N]
  | Zpos p => digitsOf (Pos.size_nat p) (Npos p) []
  | Zneg p => 0x2D%N :: digitsOf (Pos.size_nat p) (Npos p) []
  end.

(** [s.padStart(targetLength, pad)] with a one-code-unit [pad]. *)
Definition padStart (targetLength : nat) (pad : JS.char) (s : jsstring) : jsstring :=
  repeat pad (targetLength - length s) ++ s.

(** The link [downloadImage] builds and clicks. *)
Record Link := {
  download : jsstring;
  href : jsstring
}.

Definition downloadImage (imageData : jsstring) (index : nat) : Link :=
  {| download := padStart 2 0x30%N (numberToString (Z.of_nat index)) ++ js ".png";
     href := imageData |}.

(** [downloadAll]: the timers set by [images.forEach((img, idx) => ...)]
    from position [idx] on, each with its delay in milliseconds and the link
    its callback clicks. *)
Fixpoint downloadAllFrom (idx : nat) (images : list jsstring) : list (Z * Link) :=
  match images with
  | [] => []
  | img :: rest =>
      ((Z.of_nat idx * 100)%Z, downloadImage img (idx + 1))
      :: downloadAllFrom (S idx) rest
  end.

Definition downloadAll (images : list jsstring) : list (Z * Link) :=
  downloadAllFrom 0 images.

(** ** The signed-in user and the profile store *)

Module Auth.

(** The fields of the Firebase [User] the pages read; [email],
    [displayName] and [photoURL] may be null. *)
Record User := {
  uid : jsstring;
  email : option jsstring;
  displayName : option jsstring;
  photoURL : option jsstring
}.

End Auth.

Definition eqString (a b : jsstring) : bool :=
  if list_eq_dec N.eq_dec a b then true else false.

(** The effect of the home page that depends on [user]: the state is
    [lastTrackedUserRef.current], the result the new value of the ref and
    the users [syncUserProfile] is called with (none or one). *)
Definition trackUser (lastTrackedUserRef : option jsstring) (user : option Auth.User)
  : option jsstring * list Auth.User :=
  match user with
  | None => (None, [])
  | Some u =>
      match lastTrackedUserRef with
      | Some tracked =>
          if eqString tracked (Auth.uid u) then (lastTrackedUserRef, [])
          else (Some (Auth.uid u), [u])
      | None => (Some (Auth.uid u), [u])
      end
  end.

(** The runs of the effect for the successive values of [user], with the
    calls of [syncUserProfile] they make, oldest first. *)
Definition trackUsers (users : list (option Auth.User)) (lastTrackedUserRef : option jsstring)
  : option jsstring * list Auth.User :=
  fold_left
    (fun '(ref, calls) user =>
       let '(ref', called) := trackUser ref user in (ref', calls ++ called))
    users (lastTrackedUserRef, []).

Module Firestore.

(** The field values the pages write and read. *)
Inductive Value :=
| VString (s : jsstring)
| VNumber (n : Z)
| VTimestamp (t : Z)
| VNull.

(** A document: its fields by name, each name once. *)
Definition Doc := list (string * Value).

Fixpoint field (d : Doc) (k : string) : option Value :=
  match d with
  | [] => None
  | (k', v) :: rest => if String.eqb k' k then Some v else field rest k
  end.

(** What [setDoc] is given for a field: a value, [serverTimestamp()] or
    [increment(n)]. *)
Inductive FieldValue :=
| Plain (v : Value)
| ServerTimestamp
| Increment (n : Z).

Definition Data := list (string * FieldValue).

(** The value a written field gets at server time [now], [old] being the
    value it had: [increment(n)] adds to a number and sets [n] when the
    field is missing or not a number. *)
Definition resolve (now : Z) (old : option Value) (fv : FieldValue) : Value :=
  match fv with
  | Plain v => v
  | ServerTimestamp => VTimestamp now
  | Increment n =>
      match old with
      | Some (VNumber m) => VNumber (m + n)
      | _ => VNumber n
      end
  end.

Fixpoint given (data : Data) (k : string) : option FieldValue :=
  match data with
  | [] => None
  | (k', fv) :: rest => if String.eqb k' k then Some fv else given rest k
  end.

(** [setDoc(ref, data)]: the document is replaced. *)
Definition written (now : Z) (data : Data) : Doc :=
  map (fun '(k, fv) => (k, resolve now None fv)) data.

(** [setDoc(ref, data, { merge: true })]: the fields of [data] are written,
    the other fields of the document stay. *)
Definition merged (now : Z) (data : Data) (old : Doc) : Doc :=
  map (fun '(k, fv) => (k, resolve now (field old k) fv)) data
  ++ filter (fun '(k, _) => negb (existsb (String.eqb k) (map fst data))) old.

(** The collection [users], by document id. *)
Definition Store := jsstring -> option Doc.

Definition put (id : jsstring) (d : Doc) (store : Store) : Store :=
  fun id' => if eqString id id' then Some d else store id'.

Inductive Error :=
| FirebaseError (code : string)
| OtherError.

(** A promise settled: resolved with a value or rejected with an error. *)
Inductive Settled (A : Type) :=
| Resolved (a : A)
| Rejected (e : Error).
Arguments Resolved {A} a.
Arguments Rejected {A} e.

(** What stands between a call and the store (security rules, network):
    the error, if any, [getDoc] and [setDoc] meet on a document. *)
Record Access := {
  getDocError : jsstring -> option Error;
  setDocError : jsstring -> option Error
}.

End Firestore.

Import Firestore.

(** [baseData] of [syncUserProfile]; [x ?? ''] is [x] unless it is null. *)
Definition orEmpty (x : option jsstring) : jsstring :=
  match x with
  | Some s => s
  | None => []
  end.

Definition baseData (user : Auth.User) : Data :=
  [("uid"%string, Plain (VString (Auth.uid user)));
   ("email"%string, Plain (VString (orEmpty (Auth.email user))));
   ("displayName"%string, Plain (VString (orEmpty (Auth.displayName user))));
   ("photoURL"%string, Plain (VString (orEmpty (Auth.photoURL user))))].

(** The [try] block of [syncUserProfile]. *)
Definition trySync (access : Access) (now : Z) (user : Auth.User) (store : Store)
  : Settled unit * Store :=
  let userRef := Auth.uid user in
  match getDocError access userRef with
  | Some e => (Rejected e, store)
  | None =>
      match store userRef with
      | None =>
          match setDocError access userRef with
          | Some e => (Rejected e, store)
          | None =>
              (Resolved tt,
               put userRef
                 (written now
                    (baseData user
                     ++ [("createdAt"%string, ServerTimestamp);
                         ("lastLogin"%string, ServerTimestamp);
                         ("loginCount"%string, Plain (VNumber 1))]))
                 store)
          end
      | Some snapshot =>
          match setDocError access userRef with
          | Some e => (Rejected e, store)
          | None =>
              (Resolved tt,
               put userRef
                 (merged now
                    (baseData user
                     ++ [("lastLogin"%string, ServerTimestamp);
                         ("loginCount"%string, Increment 1)])
                    snapshot)
                 store)
          end
      end
  end.

(** [syncUserProfile]: a permission-denied error is logged and dropped, any
    other error is thrown again. *)
Definition syncUserProfile (access : Access) (now : Z) (user : Auth.User) (store : Store)
  : Settled unit * Store :=
  match trySync access now user store with
  | (Rejected (FirebaseError code), store') =>
      if String.eqb code "permission-denied" then (Resolved tt, store')
      else (Rejected (FirebaseError code), store')
  | settled => settled
  end.

(** Successive logins of [user] at the given server times. *)
Definition syncAll (access : Access) (times : list Z) (user : Auth.User) (store : Store)
  : Store :=
  fold_left (fun st now => snd (syncUserProfile access now user st)) times store.

(** ** The admin page *)

Module Admin.

Record UserLog := {
  uid : jsstring;
  email : jsstring;
  displayName : jsstring;
  photoURL : jsstring;
  lastLogin : Value;
  loginCount : Z;
  createdAt : Value
}.

(** [typeof v === 'string' ? v : fallback]. *)
Definition stringOr (v : option Value) (fallback : jsstring) : jsstring :=
  match v with
  | Some (VString s) => s
  | _ => fallback
  end.

(** [v ?? null]. *)
Definition orNull (v : option Value) : Value :=
  match v with
  | Some v => v
  | None => VNull
  end.

(** The body of [snapshot.docs.map(docSnap => ...)]. *)
Definition toUserLog (docSnap : jsstring * Doc) : UserLog :=
  let data := snd docSnap in
  {| uid := fst docSnap;
     email := stringOr (field data "email") [];
     displayName :=
       match field data "displayName" with
       | Some (VString s) => s
       | _ => stringOr (field data "name") (js "Unknown")
       end;
     photoURL := stringOr (field data "photoURL") [];
     lastLogin := orNull (field data "lastLogin");
     loginCount :=
       match field data "loginCount" with
       | Some (VNumber n) => n
       | _ => 0%Z
       end;
     createdAt := orNull (field data "createdAt") |}.

(** The page state, with the Firestore listener ([listening]) and the
    routes pushed. *)
Record State := {
  user : option Auth.User;
  loading : bool;
  users : list UserLog;
  errorMessage : option string;
  listening : bool;
  pushed : list string
}.

Definition initial : State :=
  {| user := None; loading := true; users := []; errorMessage := None;
     listening := false; pushed := [] |}.

Definition totalUsers (st : State) : nat := length (users st).

Definition totalLogins (st : State) : Z :=
  fold_left (fun sum current => (sum + loginCount current)%Z) (users st) 0%Z.

Inductive Event :=
| AuthStateChanged (currentUser : option Auth.User)
| Snapshot (docs : list (jsstring * Doc))
| SnapshotError (e : Error).

Inductive View :=
| Loading
| AccessDenied
| Dashboard (rows : list UserLog).

Section Page.

(** [isAdmin] of [@/lib/admin], which the page imports. *)
Variable isAdmin : option jsstring -> bool.

Definition admin (u : option Auth.User) : bool :=
  match u with
  | Some u => isAdmin (Auth.email u)
  | None => false
  end.

(** One event and the effects that follow it.  [AuthStateChanged]: the
    callback of [onAuthStateChanged], then the effect that depends on
    [user] (its cleanup unsubscribes; it clears the rows or subscribes).
    [Snapshot] and [SnapshotError]: the two callbacks of [onSnapshot],
    which only run while the listener is attached. *)
Definition step (st : State) (ev : Event) : State :=
  match ev with
  | AuthStateChanged currentUser =>
      let pushed' :=
        match currentUser with
        | Some u => if negb (isAdmin (Auth.email u)) then pushed st ++ ["/"%string]
                    else pushed st
        | None => pushed st
        end in
      if negb (admin currentUser) then
        {| user := currentUser; loading := false; users := [];
           errorMessage := errorMessage st; listening := false; pushed := pushed' |}
      else
        {| user := currentUser; loading := false; users := users st;
           errorMessage := errorMessage st; listening := true; pushed := pushed' |}
  | Snapshot docs =>
      if listening st then
        {| user := user st; loading := loading st; users := map toUserLog docs;
           errorMessage := None; listening := true; pushed := pushed st |}
      else st
  | SnapshotError e =>
      if listening st then
        {| user := user st; loading := loading st; users := [];
           errorMessage :=
             Some (match e with
                   | FirebaseError code =>
                       if String.eqb code "permission-denied"
                       then "Firestore 사용자 데이터를 가져올 권한이 없습니다. Firestore 보안 규칙에서 관리자 계정을 허용하도록 설정해주세요."%string
                       else "사용자 목록을 불러오는 중 문제가 발생했습니다. 잠시 후 다시 시도해주세요."%string
                   | OtherError =>
                       "사용자 목록을 불러오는 중 문제가 발생했습니다. 잠시 후 다시 시도해주세요."%string
                   end);
           listening := false; pushed := pushed st |}
      else st
  end.

Definition run (events : list Event) : State := fold_left step events initial.

(** The page holds no rows and listens to nothing, or an admin is signed
    in. *)
Definition guarded (st : State) : Prop :=
  (users st = [] /\ listening st = false) \/ admin (user st) = true.

(** What the page renders. *)
Definition view (st : State) : View :=
  if loading st then Loading
  else if negb (admin (user st)) then AccessDenied
  else Dashboard (users st).

End Page.

End Admin.

(** ** Reference definitions, following the contracts of the components *)

(** Greedy accumulation as the wrapper's contract words it: characters are
    appended one at a time to [accumulator]; when appending the next one
    would make it longer than 25, the accumulator as it was is emitted and
    restarts from that character; a non-empty remainder is emitted last. *)
Fixpoint greedyWrap (accumulator chars : jsstring) : list jsstring :=
  match chars with
  | [] => if truthy accumulator then [accumulator] else []
  | c :: rest =>
      if 25 <? length (accumulator ++ [c]) then accumulator :: greedyWrap [c] rest
      else greedyWrap (accumulator ++ [c]) rest
  end.

(** The successive blocks of 25 code units of [s], the last one shorter
    when the length is not a multiple of 25; [length s] rounds suffice. *)
Fixpoint chunks25 (fuel : nat) (s : jsstring) : list jsstring :=
  match fuel with
  | O => []
  | S fuel' =>
      match s with
      | [] => []
      | _ :: _ => firstn 25 s :: chunks25 fuel' (skipn 25 s)
      end
  end.

(** The test and the stripping the classifier applies to a wrapped line. *)
Definition isTitleLine (line : jsstring) : bool :=
  includes line header && includes line verseSuffix.

Definition stripTitle (line : jsstring) : jsstring :=
  trim (replaceEmpty (replaceEmpty line headerWithSpace) verseSuffix).

(** A run of [n] hyphens. *)
Definition hyphens (n : nat) : jsstring := repeat hyphen n.

Definition startsHyphen (s : jsstring) : bool :=
  match s with
  | c :: _ => (c =? hyphen)%N
  | [] => false
  end.

Definition endsHyphen (s : jsstring) : bool := startsHyphen (rev s).

(** The text made of the chunk [c] followed by the delimited chunks of
    [rest], each preceded by its run of hyphens. *)
Fixpoint delimited (c : jsstring) (rest : list (nat * jsstring)) : jsstring :=
  match rest with
  | [] => c
  | (n, c') :: rest' => c ++ hyphens n ++ delimited c' rest'
  end.

(** [delimited c rest] is cut at valid delimiter runs: every run has 20 or
    more hyphens and is maximal (no hyphen touches it on either side), and no
    chunk contains 20 consecutive hyphens. *)
Fixpoint wellDelimited (c : jsstring) (rest : list (nat * jsstring)) : bool :=
  negb (includes c (hyphens 20)) &&
  match rest with
  | [] => true
  | (n, c') :: rest' =>
      (20 <=? n) && negb (endsHyphen c) && negb (startsHyphen (delimited c' rest'))
      && wellDelimited c' rest'
  end.





(** A value with no number to read: after optional white space and an
    optional sign it does not start with a decimal digit (the empty string
    among them). *)
Definition nonNumeric (value : jsstring) : bool :=
  let afterSpace := trimStart value in
  let afterSign :=
    match afterSpace with
    | c :: tl => if ((c =? 0x2B) || (c =? 0x2D))%N then tl else afterSpace
    | [] => []
    end in
  match afterSign with
  | [] => true
  | c :: _ => negb ((0x30 <=? c) && (c <=? 0x39))%N
  end.

(** What may follow the digits: nothing, or a code unit that is neither a
    digit nor the [x] of a hexadecimal prefix. *)
Definition endsNumber (rest : jsstring) : Prop :=
  match rest with
  | [] => True
  | c :: _ =>
      ((0x30 <=? c) && (c <=? 0x39))%N = false
      /\ ((c =? 0x78) || (c =? 0x58))%N = false
  end.

(** A sequence of edits of the settings inputs, oldest first. *)
Definition applyEdits (edits : list (Field * jsstring)) (settings : Settings) : Settings :=
  fold_left (fun s '(f, value) => onChange f value s) edits settings.

(** The state [processFile] leaves behind when the batch fails. *)
Definition failedState (st : State) : State :=
  {| file := file st; processing := false; images := [];
     settings := settings st;
     alerts := alerts st ++ ["파일 처리 중 오류가 발생했습니다."%string] |}.


(** Two canvas backends to run the page on.  The encoder of the first
    always succeeds and returns one star per drawing call; the encoder of the
    second throws on a canvas with more than 13 drawing calls. *)
Definition starBackend : Canvas.Backend :=
  {| Canvas.context2d := true;
     Canvas.toDataURL := fun c => Ok (repeat 0x2A%N (length (Canvas.drawn c))) |}.

Definition smallBackend : Canvas.Backend :=
  {| Canvas.context2d := true;
     Canvas.toDataURL := fun c =>
       if length (Canvas.drawn c) <=? 13
       then Ok (repeat 0x2A%N (length (Canvas.drawn c)))
       else Throw |}.

(** The page after the upload of a file with the given content, with
    images left from an earlier run. *)
Definition uploaded (content : jsstring) : State :=
  {| file := Some {| name := "verses.txt"; text := Ok content |};
     processing := false;
     images := [js "earlier"];
     settings := defaultSettings;
     alerts := [] |}.


Definition twoVerses : jsstring :=
  js "창세기 1장 1절
태초에 하나님이
--------------------
창세기 1장 2절
땅은 형태가 없고 비어 있었으며
어둠이 깊은 물 위에 있었고
--------------------".

(** A store access without failures, one whose writes are denied, an empty
    store and a user, to run [syncUserProfile] on. *)
Definition openAccess : Access :=
  {| getDocError := fun _ => None; setDocError := fun _ => None |}.

Definition readOnlyAccess : Access :=
  {| getDocError := fun _ => None;
     setDocError := fun _ => Some (FirebaseError "permission-denied") |}.

Definition emptyStore : Store := fun _ => None.

Definition alice : Auth.User :=
  {| Auth.uid := js "u1"; Auth.email := Some (js "alice@example.com");
     Auth.displayName := None; Auth.photoURL := None |}.

(** A profile document written by an earlier version of the page: a
    [name] field, no [loginCount]. *)
Definition legacyStore : Store :=
  put (js "u1")
    [("name"%string, VString (js "Alice")); ("createdAt"%string, VTimestamp 5)]
    emptyStore.

(** ** Sanity checks of the embedding *)

Example js_header : js "창세기 1장" = [0xCC3D; 0xC138; 0xAE30; 0x20; 0x31; 0xC7A5]%N.
Proof. reflexivity. Qed.

Example js_suffix : js "절" = [0xC808]%N.
Proof. reflexivity. Qed.

Example trim_example : trim (js "  a b 	") = js "a b".
Proof. reflexivity. Qed.

Example split_example :
  split newline (js "a
b

c") = [js "a"; js "b"; js ""; js "c"].
Proof. reflexivity. Qed.

Example splitDelimiter_example :
  splitDelimiter (js "x---------------------y--z--------------------")
  = [js "x"; js "y--z"; js ""].
Proof. reflexivity. Qed.

Example wrap_example :
  wrap (js "abcdefghijklmnopqrstuvwxyz0123456789ABCDEFGHIJKLMNOPQRSTUVWXYZ
   
xy")
  = [js "abcdefghijklmnopqrstuvwxy"; js "z0123456789ABCDEFGHIJKLMN";
     js "OPQRSTUVWXYZ"; js "xy"].
Proof. reflexivity. Qed.

Example parseInt_examples :
  parseInt (js "62") = Num 62 /\ parseInt (js "  -5px") = Num (-5)
  /\ parseInt (js "0x1f") = Num 31 /\ parseInt (js "") = NaN
  /\ parseInt (js "abc") = NaN /\ parseInt (js "1e3") = Num 1
  /\ parseInt (js "0") = Num 0 /\ parseInt (js "0x") = NaN.
Proof. repeat split; reflexivity. Qed.

(** ** The line wrapper *)

Section Wrapper.

Lemma fold_wrapChar (chars : jsstring) :
  forall wrappedLines currentLine w cur,
    fold_left wrapChar chars (wrappedLines, currentLine) = (w, cur) ->
    (if truthy cur then w ++ [cur] else w)
    = wrappedLines ++ greedyWrap currentLine chars.
Proof.
  induction chars as [|c rest IH]; intros w0 cur0 w cur; simpl.
  - intros [= <- <-]. destruct (truthy cur0); [reflexivity | now rewrite app_nil_r].
  - destruct (25 <? length (cur0 ++ [c])) eqn:E; intros H.
    + rewrite (IH _ _ _ _ H), <- app_assoc. reflexivity.
    + apply (IH _ _ _ _ H).
Qed.

Lemma wrapLine_greedy (line : jsstring) (w : list jsstring) :
  wrapLine w line
  = w ++ (if truthy (trim line) then greedyWrap [] line else []).
Proof.
  unfold wrapLine. cbv zeta. destruct (truthy (trim line)).
  - destruct (fold_left wrapChar line (w, [])) as [w' cur] eqn:E.
    apply (fold_wrapChar _ _ _ E).
  - now rewrite app_nil_r.
Qed.

Lemma fold_wrapLine (lines : list jsstring) :
  Forall (fun l => truthy (trim l) = true) lines ->
  forall w, fold_left wrapLine lines w = w ++ flat_map (greedyWrap []) lines.
Proof.
  induction 1 as [|l ls Hl _ IH]; intros w; simpl.
  - now rewrite app_nil_r.
  - rewrite IH, wrapLine_greedy, Hl, <- app_assoc. reflexivity.
Qed.

Lemma logicalLines_nonblank (section : jsstring) :
  Forall (fun l => truthy (trim l) = true) (logicalLines section).
Proof.
  apply Forall_forall. intros l Hl.
  apply filter_In in Hl. tauto.
Qed.

Lemma greedyWrap_length (chars : jsstring) :
  forall accumulator,
    length accumulator <= 25 ->
    Forall (fun l => length l <= 25) (greedyWrap accumulator chars).
Proof.
  induction chars as [|c rest IH]; intros acc Hacc; simpl.
  - destruct (truthy acc); auto.
  - destruct (25 <? length (acc ++ [c])) eqn:E.
    + constructor; [exact Hacc | apply IH; simpl; lia].
    + apply IH. apply Nat.ltb_ge in E. exact E.
Qed.

Lemma greedyWrap_concat (chars : jsstring) :
  forall accumulator, concat (greedyWrap accumulator chars) = accumulator ++ chars.
Proof.
  induction chars as [|c rest IH]; intros acc; simpl.
  - destruct acc; simpl; [reflexivity | now rewrite !app_nil_r].
  - destruct (25 <? length (acc ++ [c])).
    + simpl. rewrite IH. reflexivity.
    + rewrite IH, <- app_assoc. reflexivity.
Qed.

Lemma chunks25_nil (fuel : nat) : chunks25 fuel [] = [].
Proof. destruct fuel; reflexivity. Qed.

(** Greedy accumulation cuts a line into blocks of 25 code units. *)
Lemma greedyWrap_chunks25 (chars : jsstring) :
  forall accumulator fuel,
    length accumulator <= 25 ->
    length accumulator + length chars <= fuel ->
    greedyWrap accumulator chars = chunks25 fuel (accumulator ++ chars).
Proof.
  induction chars as [|c rest IH]; intros acc fuel Hacc Hfuel.
  - rewrite app_nil_r. destruct acc as [|a acc'].
    + now rewrite chunks25_nil.
    + destruct fuel as [|fuel]; [simpl in Hfuel; lia|].
      cbn [greedyWrap truthy chunks25].
      rewrite firstn_all2 by exact Hacc.
      rewrite skipn_all2 by exact Hacc.
      now rewrite chunks25_nil.
  - cbn [greedyWrap]. rewrite length_app. cbn [length] in *.
    destruct (25 <? length acc + 1) eqn:E.
    + apply Nat.ltb_lt in E. assert (Hlen : length acc = 25) by lia.
      destruct fuel as [|fuel]; [lia|].
      rewrite (IH [c] fuel) by (cbn [length]; lia).
      destruct (acc ++ c :: rest) as [|x l] eqn:Eapp.
      { destruct acc; discriminate. }
      cbn [chunks25]. rewrite <- Eapp, <- Hlen.
      rewrite firstn_app, Nat.sub_diag, firstn_all, firstn_O, app_nil_r.
      rewrite skipn_app, Nat.sub_diag, skipn_all. reflexivity.
    + apply Nat.ltb_ge in E.
      rewrite (IH (acc ++ [c]) fuel), <- app_assoc; [reflexivity| |];
        rewrite length_app; cbn [length]; lia.
Qed.

Lemma greedyWrap_blocks (line : jsstring) :
  greedyWrap [] line = chunks25 (length line) line.
Proof. apply (@greedyWrap_chunks25 line [] (length line)); simpl; lia. Qed.

Lemma wrap_flat_map (section : jsstring) :
  wrap section = flat_map (greedyWrap []) (logicalLines section).
Proof.
  unfold wrap. rewrite (fold_wrapLine (logicalLines_nonblank section)).
  reflexivity.
Qed.

End Wrapper.

(** C1: the wrapped lines of a section are the greedy accumulation of each
    of its non-blank newline-delimited lines, line after line: an
    accumulator that would exceed 25 code units is emitted as it is and
    restarts from the next character, and a non-empty remainder is emitted
    at the end of the line. *)
Theorem wrap_is_greedy_accumulation (section : jsstring) :
  wrap section
  = flat_map (greedyWrap [])
      (filter (fun l => truthy (trim l)) (split newline section)).
Proof. exact (wrap_flat_map section). Qed.

(** C2: every wrapped line produced from any input has at most 25 code
    units. *)
Theorem wrap_length_le_25 (section : jsstring) :
  Forall (fun wrappedLine => length wrappedLine <= 25) (wrap section).
Proof.
  rewrite wrap_flat_map. apply Forall_flat_map, Forall_forall.
  intros line _. apply greedyWrap_length. simpl. lia.
Qed.

(** C9: the wrapped lines produced from a logical line whose trimmed
    content is non-empty, concatenated in order, are that line: no code unit
    is dropped, duplicated or moved. *)
Theorem wrapLine_concat (wrappedLines : list jsstring) (line : jsstring) :
  trim line <> [] ->
  exists produced,
    wrapLine wrappedLines line = wrappedLines ++ produced
    /\ concat produced = line.
Proof.
  intros Hline. exists (greedyWrap [] line). split.
  - rewrite wrapLine_greedy. destruct (trim line); [congruence | reflexivity].
  - apply greedyWrap_concat.
Qed.

Lemma wrapLine_concat_witness :
  exists produced,
    wrapLine [js "before"] (js "abcdefghijklmnopqrstuvwxyz0123456789")
    = [js "before"] ++ produced
    /\ concat produced = js "abcdefghijklmnopqrstuvwxyz0123456789".
Proof.
  apply (wrapLine_concat [js "before"] (js "abcdefghijklmnopqrstuvwxyz0123456789")).
  vm_compute. discriminate.
Defined.

(** ** The section splitter *)

Section Splitter.

#[local] Arguments N.eqb : simpl never.

Lemma startsWith_hyphens (n : nat) :
  forall s, startsWith (hyphens n) s = (n <=? leadingHyphens s).
Proof.
  induction n as [|n IH]; intros s; simpl.
  - reflexivity.
  - destruct s as [|c tl]; simpl; [reflexivity|].
    rewrite N.eqb_sym. destruct (c =? hyphen)%N; simpl; [apply IH | reflexivity].
Qed.

Lemma includes_cons (c : JS.char) (s p : jsstring) :
  includes (c :: s) p = false -> includes s p = false.
Proof.
  change (includes (c :: s) p) with (startsWith p (c :: s) || includes s p).
  intros H. apply orb_false_iff in H. tauto.
Qed.

Lemma includes_leadingHyphens (s : jsstring) :
  includes s (hyphens 20) = false -> leadingHyphens s < 20.
Proof.
  destruct s as [|c s]; [simpl; lia|]. intros H.
  change (startsWith (hyphens 20) (c :: s) || includes s (hyphens 20) = false) in H.
  apply orb_false_iff in H. destruct H as [E _].
  rewrite startsWith_hyphens in E. apply Nat.leb_gt in E. exact E.
Qed.

Lemma endsHyphen_cons (c : JS.char) (s : jsstring) :
  s <> [] -> endsHyphen (c :: s) = endsHyphen s.
Proof.
  intros Hs. unfold endsHyphen. simpl.
  destruct (rev s) as [|x r] eqn:E; [|reflexivity].
  apply (f_equal (@rev _)) in E. rewrite rev_involutive in E. contradiction.
Qed.

Lemma leadingHyphens_app (s t : jsstring) :
  s <> [] -> endsHyphen s = false ->
  leadingHyphens (s ++ t) = leadingHyphens s.
Proof.
  induction s as [|c s IH]; intros Hne Hend; [contradiction|]. simpl.
  destruct (c =? hyphen)%N eqn:Ec; [|reflexivity].
  destruct s as [|c' s'].
  - unfold endsHyphen in Hend. simpl in Hend. congruence.
  - f_equal. apply IH; [discriminate|].
    rewrite endsHyphen_cons in Hend; [exact Hend | discriminate].
Qed.

Lemma leadingHyphens_hyphens (n : nat) (t : jsstring) :
  startsHyphen t = false -> leadingHyphens (hyphens n ++ t) = n.
Proof.
  intros Ht. unfold hyphens. induction n as [|n IH]; simpl.
  - destruct t as [|c tl]; [reflexivity|]. simpl in *. now rewrite Ht.
  - now rewrite IH.
Qed.

Lemma skipn_hyphens (n : nat) (t : jsstring) : skipn n (hyphens n ++ t) = t.
Proof. unfold hyphens. induction n; simpl; auto. Qed.

(** Scanning a chunk in which no delimiter starts moves it, code unit by
    code unit, into the open chunk. *)
Lemma splitLoop_scan (c : jsstring) :
  forall tail chunk fuel,
    includes c (hyphens 20) = false ->
    tail = [] \/ endsHyphen c = false ->
    length c + length tail <= fuel ->
    splitLoop fuel chunk (c ++ tail)
    = splitLoop (fuel - length c) (rev c ++ chunk) tail.
Proof.
  induction c as [|x c IH]; intros tail chunk fuel Hinc Hend Hfuel.
  - simpl. now rewrite Nat.sub_0_r.
  - destruct fuel as [|fuel]; [simpl in Hfuel; lia|].
    assert (Hm : matchDelimiter ((x :: c) ++ tail) = None).
    { unfold matchDelimiter.
      assert (leadingHyphens ((x :: c) ++ tail) < 20) as Hlt.
      { destruct Hend as [-> | Hend].
        - rewrite app_nil_r. now apply includes_leadingHyphens.
        - rewrite leadingHyphens_app; [|discriminate|exact Hend].
          now apply includes_leadingHyphens. }
      apply Nat.leb_gt in Hlt. now rewrite Hlt. }
    change (splitLoop (S fuel) chunk ((x :: c) ++ tail))
      with (match matchDelimiter ((x :: c) ++ tail) with
            | Some n => rev chunk :: splitLoop fuel [] (skipn n ((x :: c) ++ tail))
            | None => splitLoop fuel (x :: chunk) (c ++ tail)
            end).
    rewrite Hm, IH.
    + simpl. rewrite <- app_assoc. reflexivity.
    + eapply includes_cons, Hinc.
    + destruct Hend as [-> | Hend]; [now left | right].
      destruct c as [|y c']; [reflexivity|].
      rewrite endsHyphen_cons in Hend; [exact Hend | discriminate].
    + simpl in Hfuel. lia.
Qed.

(** A maximal run of 20 or more hyphens closes the open chunk and is
    skipped whole. *)
Lemma splitLoop_delimiter (n fuel : nat) (chunk t : jsstring) :
  20 <= n -> startsHyphen t = false ->
  splitLoop (S fuel) chunk (hyphens n ++ t) = rev chunk :: splitLoop fuel [] t.
Proof.
  intros Hn Ht.
  assert (Hm : matchDelimiter (hyphens n ++ t) = Some n).
  { unfold matchDelimiter. rewrite leadingHyphens_hyphens by exact Ht.
    apply Nat.leb_le in Hn. now rewrite Hn. }
  destruct n as [|n]; [lia|].
  change (splitLoop (S fuel) chunk (hyphens (S n) ++ t))
    with (match matchDelimiter (hyphens (S n) ++ t) with
          | Some k => rev chunk :: splitLoop fuel [] (skipn k (hyphens (S n) ++ t))
          | None => splitLoop fuel (hyphen :: chunk) (hyphens n ++ t)
          end).
  rewrite Hm, skipn_hyphens. reflexivity.
Qed.

Lemma length_hyphens (n : nat) : length (hyphens n) = n.
Proof. apply repeat_length. Qed.

Lemma splitLoop_nil (fuel : nat) (chunk : jsstring) :
  splitLoop fuel chunk [] = [rev chunk].
Proof. destruct fuel; reflexivity. Qed.

Lemma splitLoop_delimited (rest : list (nat * jsstring)) :
  forall c chunk fuel,
    wellDelimited c rest = true ->
    length (delimited c rest) <= fuel ->
    splitLoop fuel chunk (delimited c rest) = (rev chunk ++ c) :: map snd rest.
Proof.
  induction rest as [|[n c'] rest IH]; intros c chunk fuel Hwd Hfuel;
    cbn [wellDelimited delimited map snd] in *.
  - rewrite andb_true_r in Hwd. apply negb_true_iff in Hwd.
    rewrite <- (app_nil_r c) at 1.
    rewrite splitLoop_scan; auto; [|simpl; lia].
    rewrite splitLoop_nil, rev_app_distr, rev_involutive. reflexivity.
  - apply andb_true_iff in Hwd. destruct Hwd as [Hc Hwd].
    apply andb_true_iff in Hwd. destruct Hwd as [Hwd Hrest].
    apply andb_true_iff in Hwd. destruct Hwd as [Hwd Hstart].
    apply andb_true_iff in Hwd. destruct Hwd as [Hn Hend].
    apply negb_true_iff in Hc, Hend, Hstart. apply Nat.leb_le in Hn.
    rewrite !length_app, length_hyphens in Hfuel.
    rewrite splitLoop_scan; auto;
      [|rewrite length_app, length_hyphens; lia].
    destruct (fuel - length c) as [|fuel'] eqn:Ef; [lia|].
    rewrite splitLoop_delimiter; auto.
    rewrite rev_app_distr, rev_involutive. f_equal.
    apply (IH c' [] fuel'); [exact Hrest | lia].
Qed.

(** The split of a text cut at valid delimiter runs is the list of its
    chunks, without the runs. *)
Lemma splitDelimiter_delimited (c : jsstring) (rest : list (nat * jsstring)) :
  wellDelimited c rest = true ->
  splitDelimiter (delimited c rest) = c :: map snd rest.
Proof.
  intros Hwd. unfold splitDelimiter.
  now rewrite (@splitLoop_delimited rest c [] _ Hwd (le_n _)).
Qed.

Lemma includes_hyphens_app (k : nat) (b : jsstring) :
  k < 20 -> startsHyphen b = false -> includes b (hyphens 20) = false ->
  includes (hyphens k ++ b) (hyphens 20) = false.
Proof.
  intros Hk Hb Hinc. induction k as [|k IH]; [exact Hinc|].
  change (hyphens (S k) ++ b) with (hyphen :: (hyphens k ++ b)).
  change (startsWith (hyphens 20) (hyphen :: (hyphens k ++ b))
          || includes (hyphens k ++ b) (hyphens 20) = false).
  rewrite IH by lia. rewrite orb_false_r, startsWith_hyphens.
  change (hyphen :: (hyphens k ++ b)) with (hyphens (S k) ++ b).
  rewrite leadingHyphens_hyphens by exact Hb. apply Nat.leb_gt. lia.
Qed.

Lemma includes_app (a t : jsstring) :
  includes a (hyphens 20) = false -> endsHyphen a = false ->
  includes t (hyphens 20) = false ->
  includes (a ++ t) (hyphens 20) = false.
Proof.
  intros Ha Hend Ht. induction a as [|x a IH]; [exact Ht|].
  change (startsWith (hyphens 20) ((x :: a) ++ t)
          || includes (a ++ t) (hyphens 20) = false).
  rewrite IH.
  - rewrite orb_false_r, startsWith_hyphens.
    rewrite leadingHyphens_app; [|discriminate|exact Hend].
    apply Nat.leb_gt. now apply includes_leadingHyphens.
  - eapply includes_cons, Ha.
  - destruct a as [|y a']; [reflexivity|].
    rewrite endsHyphen_cons in Hend; [exact Hend | discriminate].
Qed.

(** Every text is cut at valid delimiter runs in some way, so the
    description of the split by [delimited] leaves no text out. *)
Lemma wellDelimited_head (c c2 : jsstring) (rest : list (nat * jsstring)) :
  wellDelimited c rest = true ->
  includes c2 (hyphens 20) = false ->
  (rest <> [] -> endsHyphen c2 = false) ->
  wellDelimited c2 rest = true.
Proof.
  destruct rest as [|[n c'] rest]; cbn [wellDelimited]; intros Hwd Hinc Hend.
  - now rewrite Hinc.
  - rewrite Hinc, Hend by discriminate.
    apply andb_true_iff in Hwd. destruct Hwd as [_ Hwd].
    apply andb_true_iff in Hwd. destruct Hwd as [Hwd Hrest].
    apply andb_true_iff in Hwd. destruct Hwd as [Hwd Hstart].
    apply andb_true_iff in Hwd. destruct Hwd as [Hn _].
    now rewrite Hn, Hstart, Hrest.
Qed.

Lemma wellDelimited_includes (c : jsstring) (rest : list (nat * jsstring)) :
  wellDelimited c rest = true -> includes c (hyphens 20) = false.
Proof.
  destruct rest as [|[n c'] rest]; cbn [wellDelimited]; intros Hwd;
    apply andb_true_iff in Hwd; destruct Hwd as [Hc _];
    now apply negb_true_iff in Hc.
Qed.

Lemma wellDelimited_endsHyphen (c : jsstring) (rest : list (nat * jsstring)) :
  wellDelimited c rest = true -> rest <> [] -> endsHyphen c = false.
Proof.
  destruct rest as [|[n c'] rest]; cbn [wellDelimited]; intros Hwd Hne;
    [contradiction|].
  apply andb_true_iff in Hwd. destruct Hwd as [_ Hwd].
  apply andb_true_iff in Hwd. destruct Hwd as [Hwd _].
  apply andb_true_iff in Hwd. destruct Hwd as [Hwd _].
  apply andb_true_iff in Hwd. destruct Hwd as [_ Hend].
  now apply negb_true_iff in Hend.
Qed.

Lemma includes_cons_intro (x : JS.char) (s : jsstring) :
  leadingHyphens (x :: s) < 20 -> includes s (hyphens 20) = false ->
  includes (x :: s) (hyphens 20) = false.
Proof.
  intros Hlt Hs.
  change (startsWith (hyphens 20) (x :: s) || includes s (hyphens 20) = false).
  rewrite Hs, orb_false_r, startsWith_hyphens. now apply Nat.leb_gt.
Qed.

Lemma leadingHyphens_split (s : jsstring) :
  exists t, s = hyphens (leadingHyphens s) ++ t /\ startsHyphen t = false.
Proof.
  induction s as [|c s (t & Es & Ht)].
  - exists []. split; reflexivity.
  - cbn [leadingHyphens]. destruct (c =? hyphen)%N eqn:Ec.
    + apply N.eqb_eq in Ec. subst c. exists t. split; [|exact Ht].
      change (hyphens (S (leadingHyphens s)) ++ t)
        with (hyphen :: (hyphens (leadingHyphens s) ++ t)).
      now rewrite <- Es.
    + exists (c :: s). split; [reflexivity|]. exact Ec.
Qed.

Lemma includes_app_r (a b p : jsstring) :
  includes (a ++ b) p = false -> includes b p = false.
Proof.
  induction a as [|x a IH]; [auto|]. intros H. apply IH.
  now apply includes_cons in H.
Qed.

Lemma endsHyphen_app (a b : jsstring) :
  b <> [] -> endsHyphen (a ++ b) = endsHyphen b.
Proof.
  intros Hb. induction a as [|x a IH]; [reflexivity|].
  change ((x :: a) ++ b) with (x :: (a ++ b)).
  rewrite endsHyphen_cons; [exact IH|].
  destruct a; [exact Hb | discriminate].
Qed.

Lemma endsHyphen_hyphens (n : nat) : endsHyphen (hyphens (S n)) = true.
Proof.
  induction n as [|n IH]; [reflexivity|].
  change (hyphens (S (S n))) with (hyphen :: hyphens (S n)).
  rewrite endsHyphen_cons; [exact IH | discriminate].
Qed.

Lemma delimited_app (a c : jsstring) (rest : list (nat * jsstring)) :
  delimited (a ++ c) rest = a ++ delimited c rest.
Proof.
  destruct rest as [|[n c'] rest]; cbn [delimited]; [reflexivity|].
  now rewrite <- app_assoc.
Qed.

Lemma startsHyphen_delimited (c : jsstring) (rest : list (nat * jsstring)) :
  c <> [] -> startsHyphen (delimited c rest) = startsHyphen c.
Proof.
  intros Hc. destruct c as [|x c]; [contradiction|].
  destruct rest as [|[n c'] rest]; reflexivity.
Qed.

Lemma delimited_complete (text : jsstring) :
  exists c rest, wellDelimited c rest = true /\ delimited c rest = text.
Proof.
  induction text as [|x text (c & rest & Hwd & Etext)].
  - exists [], []. split; reflexivity.
  - pose proof (@wellDelimited_includes _ _ Hwd) as Hinc.
    destruct (x =? hyphen)%N eqn:Ex.
    + apply N.eqb_eq in Ex. subst x.
      destruct c as [|y c0].
      * destruct rest as [|[n c'] rest].
        -- exists [hyphen], []. subst text. split; reflexivity.
        -- exists [], ((S n, c') :: rest). subst text. split; [|reflexivity].
           cbn [wellDelimited] in *.
           apply andb_true_iff in Hwd. destruct Hwd as [_ Hwd].
           apply andb_true_iff in Hwd. destruct Hwd as [Hwd Hrest].
           apply andb_true_iff in Hwd. destruct Hwd as [Hwd Hstart].
           apply andb_true_iff in Hwd. destruct Hwd as [Hn _].
           apply Nat.leb_le in Hn.
           rewrite Hstart, Hrest.
           replace (20 <=? S n) with true; [reflexivity|].
           symmetry. apply Nat.leb_le. lia.
      * pose proof (@includes_leadingHyphens _ Hinc) as Hm.
        destruct (Nat.eq_dec (leadingHyphens (y :: c0)) 19) as [E19 | Hlt].
        -- destruct (leadingHyphens_split (y :: c0)) as (t & Ec & Ht).
           rewrite E19 in Ec.
           exists [], ((20, t) :: rest). split.
           ++ assert (Hrest : rest <> [] -> t <> []).
              { intros Hne ->. rewrite app_nil_r in Ec.
                pose proof (@wellDelimited_endsHyphen _ _ Hwd Hne) as Hend.
                rewrite Ec, (endsHyphen_hyphens 18) in Hend. discriminate. }
              assert (Hwt : wellDelimited t rest = true).
              { apply (@wellDelimited_head _ _ _ Hwd).
                - rewrite Ec in Hinc. eapply includes_app_r, Hinc.
                - intros Hne.
                  pose proof (@wellDelimited_endsHyphen _ _ Hwd Hne) as Hend.
                  rewrite Ec, endsHyphen_app in Hend; auto. }
              cbn [wellDelimited]. rewrite Hwt.
              assert (Hst : startsHyphen (delimited t rest) = false).
              { destruct t as [|z t'].
                - destruct rest as [|p rest']; [reflexivity|].
                  exfalso. apply Hrest; [discriminate | reflexivity].
                - rewrite startsHyphen_delimited by discriminate. exact Ht. }
              rewrite Hst. reflexivity.
           ++ subst text. rewrite Ec, delimited_app. reflexivity.
        -- exists (hyphen :: y :: c0), rest. split.
           ++ apply (@wellDelimited_head _ _ _ Hwd).
              ** apply includes_cons_intro; [|exact Hinc].
                 change (leadingHyphens (hyphen :: y :: c0))
                   with (S (leadingHyphens (y :: c0))). lia.
              ** intros Hne. rewrite endsHyphen_cons by discriminate.
                 apply (@wellDelimited_endsHyphen _ _ Hwd Hne).
           ++ subst text. destruct rest as [|[n c'] rest]; reflexivity.
    + exists (x :: c), rest. split.
      * apply (@wellDelimited_head _ _ _ Hwd).
        -- apply includes_cons_intro; [|exact Hinc].
           cbn [leadingHyphens]. rewrite Ex. lia.
        -- intros Hne. destruct c as [|y c0].
           ++ unfold endsHyphen. cbn [rev app startsHyphen]. exact Ex.
           ++ rewrite endsHyphen_cons by discriminate.
              apply (@wellDelimited_endsHyphen _ _ Hwd Hne).
      * subst text. destruct rest as [|[n c'] rest]; reflexivity.
Qed.

(** White space holds no hyphen, so a blank text is never split. *)
Lemma trimStart_nil (s : jsstring) :
  trimStart s = [] -> forallb isWhiteSpace s = true.
Proof.
  induction s as [|c s IH]; simpl; [reflexivity|].
  destruct (isWhiteSpace c); [exact IH | discriminate].
Qed.

Lemma trimStart_head (s : jsstring) :
  match trimStart s with
  | [] => True
  | c :: _ => isWhiteSpace c = false
  end.
Proof.
  induction s as [|c s IH]; simpl; [exact I|].
  destruct (isWhiteSpace c) eqn:E; [exact IH | exact E].
Qed.

Lemma trim_nil (s : jsstring) : trim s = [] -> forallb isWhiteSpace s = true.
Proof.
  unfold trim, trimEnd. intros H.
  apply (f_equal (@rev _)) in H. rewrite rev_involutive in H. simpl in H.
  apply trimStart_nil in H.
  pose proof (trimStart_head s) as Hh.
  destruct (trimStart s) as [|c tl] eqn:E; [now apply trimStart_nil|].
  rewrite forallb_forall in H.
  rewrite (H c) in Hh; [discriminate|].
  apply in_rev. rewrite rev_involutive. now left.
Qed.

Lemma whitespace_no_delimiter (s : jsstring) :
  forallb isWhiteSpace s = true -> includes s (hyphens 20) = false.
Proof.
  induction s as [|c s IH]; [reflexivity|].
  intros H. apply andb_true_iff in H. destruct H as [Hc Hs].
  change (startsWith (hyphens 20) (c :: s) || includes s (hyphens 20) = false).
  rewrite (IH Hs), orb_false_r, startsWith_hyphens.
  cbn [leadingHyphens]. destruct (c =? hyphen)%N eqn:E; [|reflexivity].
  apply N.eqb_eq in E. subst c. discriminate.
Qed.

Lemma sections_blank (text : jsstring) : trim text = [] -> sections text = [].
Proof.
  intros H. unfold sections.
  change text with (delimited text []) at 1.
  rewrite splitDelimiter_delimited.
  - simpl. now rewrite H.
  - simpl. now rewrite (whitespace_no_delimiter _ (trim_nil _ H)).
Qed.

End Splitter.

(** C3: a text is split exactly at its maximal runs of 20 or more hyphens,
    and the runs themselves are dropped; a run of exactly 19 hyphens does not
    split and stays in the text of its section; of the chunks of the split,
    the sections are those whose trimmed content is non-empty; and every text
    is cut at maximal runs of 20 or more hyphens in some way, so no text is
    left out. *)
Theorem sections_split_at_delimiters :
  (forall c rest,
      wellDelimited c rest = true ->
      splitDelimiter (delimited c rest) = c :: map snd rest)
  /\ (forall a b,
         includes a (hyphens 20) = false -> endsHyphen a = false ->
         includes b (hyphens 20) = false -> startsHyphen b = false ->
         splitDelimiter (a ++ hyphens 19 ++ b) = [a ++ hyphens 19 ++ b])
  /\ (forall text,
         sections text = filter (fun s => truthy (trim s)) (splitDelimiter text)
         /\ forall s, In s (sections text) <-> In s (splitDelimiter text) /\ trim s <> [])
  /\ (forall text,
         exists c rest, wellDelimited c rest = true /\ delimited c rest = text).
Proof.
  split; [|split; [|split; [|exact delimited_complete]]].
  - exact splitDelimiter_delimited.
  - intros a b Ha Hea Hb Hsb.
    apply (@splitDelimiter_delimited (a ++ hyphens 19 ++ b) []).
    cbn [wellDelimited]. rewrite andb_true_r. apply negb_true_iff.
    apply includes_app; auto. apply includes_hyphens_app; auto.
  - intros text. split; [reflexivity|].
    intros s. unfold sections. rewrite filter_In.
    destruct (trim s); simpl; intuition congruence.
Qed.

Lemma sections_split_at_delimiters_witness :
  splitDelimiter (delimited (js "ab") [(20, js "c-d"); (23, js " "); (20, js "")])
  = [js "ab"; js "c-d"; js " "; js ""]
  /\ splitDelimiter (js "ab" ++ hyphens 19 ++ js "cd") = [js "ab" ++ hyphens 19 ++ js "cd"]
  /\ (In (js "c-d") (sections (js "ab--------------------c-d"))
      <-> In (js "c-d") (splitDelimiter (js "ab--------------------c-d"))
          /\ trim (js "c-d") <> []).
Proof.
  destruct sections_split_at_delimiters as (Hsplit & Hshort & Hblank & _).
  split; [|split].
  - apply (Hsplit (js "ab") [(20, js "c-d"); (23, js " "); (20, js "")]).
    vm_compute. reflexivity.
  - apply (Hshort (js "ab") (js "cd")); vm_compute; reflexivity.
  - apply (Hblank (js "ab--------------------c-d")).
Defined.

(** ** The batch loop *)

Section Batch.

Variable backend : Canvas.Backend.

Lemma generateLoop_ok (currentSettings : Settings) (png : jsstring -> jsstring)
  (secs : list jsstring) :
  Canvas.context2d backend = true ->
  forall i generatedImages,
    (forall s, In s secs ->
               Canvas.toDataURL backend (paintedCanvas s currentSettings) = Ok (png s)) ->
    generateLoop backend currentSettings secs i generatedImages
    = Ok (generatedImages ++ map png secs).
Proof.
  intros Hctx. induction secs as [|s secs IH]; intros i acc Hpng; simpl.
  - now rewrite app_nil_r.
  - unfold generateImage. rewrite Hctx, (Hpng s (or_introl eq_refl)). simpl.
    rewrite IH, <- app_assoc; [reflexivity|].
    intros s' Hs'. apply Hpng. now right.
Qed.

Lemma generateLoop_throw (currentSettings : Settings) (secs : list jsstring) :
  forall n section i generatedImages,
    nth_error secs n = Some section ->
    generateImage backend section (i + n + 1) currentSettings = Throw ->
    generateLoop backend currentSettings secs i generatedImages = Throw.
Proof.
  induction secs as [|s secs IH]; intros n section i acc Hn Hthrow.
  - destruct n; discriminate.
  - destruct n as [|n]; simpl in *.
    + injection Hn as ->. rewrite Nat.add_0_r in Hthrow. now rewrite Hthrow.
    + destruct (generateImage backend s (i + 1) currentSettings); [|reflexivity].
      simpl. apply (IH n section (S i)); [exact Hn|].
      replace (S i + n + 1) with (i + S n + 1) by lia. exact Hthrow.
Qed.

End Batch.

(** C4: when the uploaded text is cut at valid delimiter runs and the canvas
    backend works, [processFile] leaves one image per non-blank chunk, in
    the order of the chunks, and shows no error; and for an empty or
    white-space-only text it leaves the empty list of images and shows no
    error, whatever the backend. *)
Theorem processFile_one_image_per_section
  (backend : Canvas.Backend) (st : State) (f : File) :
  file st = Some f ->
  (forall c rest png,
      text f = Ok (delimited c rest) ->
      wellDelimited c rest = true ->
      Canvas.context2d backend = true ->
      let segments := filter (fun s => truthy (trim s)) (c :: map snd rest) in
      (forall s, In s segments ->
         Canvas.toDataURL backend (paintedCanvas s (settings st)) = Ok (png s)) ->
      images (processFile backend st) = map png segments
      /\ length (images (processFile backend st)) = length segments
      /\ alerts (processFile backend st) = alerts st)
  /\ (forall t,
        text f = Ok t -> trim t = [] ->
        images (processFile backend st) = []
        /\ alerts (processFile backend st) = alerts st).
Proof.
  intros Hfile. split.
  - intros c rest png Htext Hwd Hctx segments Hpng.
    assert (Htry : tryProcess backend f (settings st) = Ok (map png segments)).
    { unfold tryProcess. rewrite Htext. simpl. unfold sections.
      rewrite (splitDelimiter_delimited _ _ Hwd).
      now rewrite (@generateLoop_ok backend (settings st) png _ Hctx 0 []). }
    unfold processFile. rewrite Hfile. simpl. rewrite Htry. simpl.
    rewrite length_map. auto.
  - intros t Htext Hblank.
    assert (Htry : tryProcess backend f (settings st) = Ok []).
    { unfold tryProcess. rewrite Htext. simpl.
      now rewrite (sections_blank _ Hblank). }
    unfold processFile. rewrite Hfile. simpl. rewrite Htry. simpl. auto.
Qed.

(** C7: when [generateImage] fails on any one section, [processFile] shows
    the processing-failed alert and leaves no image at all: the images
    generated before the failing section are not stored. *)
Theorem processFile_all_or_nothing
  (backend : Canvas.Backend) (st : State) (f : File) (t : jsstring)
  (n : nat) (section : jsstring) :
  file st = Some f ->
  text f = Ok t ->
  nth_error (sections t) n = Some section ->
  generateImage backend section (n + 1) (settings st) = Throw ->
  processFile backend st = failedState st
  /\ images (processFile backend st) = []
  /\ alerts (processFile backend st)
     = alerts st ++ ["파일 처리 중 오류가 발생했습니다."%string].
Proof.
  intros Hfile Htext Hn Hthrow.
  assert (Htry : tryProcess backend f (settings st) = Throw).
  { unfold tryProcess. rewrite Htext. simpl.
    apply (@generateLoop_throw backend (settings st) (sections t) n section 0 []);
      [exact Hn | exact Hthrow]. }
  assert (E : processFile backend st = failedState st).
  { unfold processFile. rewrite Hfile. simpl. rewrite Htry. reflexivity. }
  rewrite E. repeat split.
Qed.

Lemma processFile_one_image_per_section_witness :
  (images (processFile starBackend
             (uploaded (delimited (js "a") [(20, js " "); (21, js "b
c")])))
   = [repeat 0x2A%N 7; repeat 0x2A%N 13]
   /\ length (images (processFile starBackend
                        (uploaded (delimited (js "a") [(20, js " "); (21, js "b
c")]))))
      = 2
   /\ alerts (processFile starBackend
                (uploaded (delimited (js "a") [(20, js " "); (21, js "b
c")])))
      = [])
  /\ (images (processFile smallBackend (uploaded (js "  
 "))) = []
      /\ alerts (processFile smallBackend (uploaded (js "  
 "))) = []).
Proof.
  split.
  - refine (proj1 (@processFile_one_image_per_section starBackend
                     (uploaded (delimited (js "a") [(20, js " "); (21, js "b
c")])) _ eq_refl)
              (js "a") [(20, js " "); (21, js "b
c")]
              (fun s => repeat 0x2A%N (length (Canvas.drawn (paintedCanvas s defaultSettings))))
              eq_refl _ eq_refl _).
    + vm_compute. reflexivity.
    + intros s _. reflexivity.
  - refine (proj2 (@processFile_one_image_per_section smallBackend
                     (uploaded (js "  
 ")) _ eq_refl) _ eq_refl _).
    vm_compute. reflexivity.
Defined.

Lemma processFile_all_or_nothing_witness :
  processFile smallBackend (uploaded twoVerses) = failedState (uploaded twoVerses)
  /\ images (processFile smallBackend (uploaded twoVerses)) = []
  /\ alerts (processFile smallBackend (uploaded twoVerses))
     = ["파일 처리 중 오류가 발생했습니다."%string].
Proof.
  refine (@processFile_all_or_nothing smallBackend (uploaded twoVerses) _ twoVerses 1
            (nth 1 (sections twoVerses) []) eq_refl eq_refl _ _).
  - vm_compute. reflexivity.
  - vm_compute. reflexivity.
Defined.

(** ** The canvas painter *)

Section Painter.

Variable currentSettings : Settings.

Hypothesis numberFontSize_valid : (0 <= numberFontSize currentSettings)%Z.
Hypothesis contentFontSize_valid : (0 <= contentFontSize currentSettings)%Z.






End Painter.




(** ** The title/content classifier *)

Section Classifier.

Lemma classifyLine_title (title line : jsstring) (contentLines : list jsstring) :
  includes line header = true -> includes line verseSuffix = true ->
  classifyLine (title, contentLines) line
  = (trim (replaceEmpty (replaceEmpty line headerWithSpace) verseSuffix), contentLines).
Proof. intros Hh Hs. unfold classifyLine. now rewrite Hh, Hs. Qed.

Lemma classifyLine_content (title line : jsstring) (contentLines : list jsstring) :
  includes line header && includes line verseSuffix = false ->
  classifyLine (title, contentLines) line
  = (title, if truthy (trim line) then contentLines ++ [trim line] else contentLines).
Proof.
  intros H. unfold classifyLine. rewrite H. now destruct (truthy (trim line)).
Qed.

(** The title is the stripped last line that passes the test; the content
    lines are the other lines, trimmed, without the blank ones, in their
    order. *)
Lemma fold_classifyLine (wrappedLines : list jsstring) :
  forall title contentLines,
    fold_left classifyLine wrappedLines (title, contentLines)
    = (match rev (filter isTitleLine wrappedLines) with
       | [] => title
       | line :: _ => stripTitle line
       end,
       contentLines
       ++ filter truthy
            (map trim (filter (fun line => negb (isTitleLine line)) wrappedLines))).
Proof.
  induction wrappedLines as [|line lines IH]; intros title contentLines;
    cbn [fold_left map filter rev].
  - now rewrite app_nil_r.
  - destruct (isTitleLine line) eqn:E; cbn [negb rev map filter].
    + unfold isTitleLine in E. apply andb_true_iff in E. destruct E as [Eh Es].
      rewrite (@classifyLine_title title line contentLines Eh Es), IH.
      destruct (rev (filter isTitleLine lines)); reflexivity.
    + rewrite (@classifyLine_content title line contentLines E), IH.
      destruct (truthy (trim line)); [|reflexivity].
      now rewrite <- app_assoc.
Qed.

Lemma classify_title_and_content (wrappedLines : list jsstring) :
  classify wrappedLines
  = (match rev (filter isTitleLine wrappedLines) with
     | [] => []
     | line :: _ => stripTitle line
     end,
     filter truthy
       (map trim (filter (fun line => negb (isTitleLine line)) wrappedLines))).
Proof. unfold classify. now rewrite fold_classifyLine. Qed.

(** The scenario of the title extraction: header, verse number and suffix
    on the first line, one content line. *)
Example classify_scenario :
  classify (wrap (js "창세기 1장 3절
안녕하세요"))
  = (js "3", [js "안녕하세요"]).
Proof. reflexivity. Qed.

(** The end-to-end scenario: two verses, the first with two content lines,
    the second with one. *)
Example end_to_end_scenario :
  map (fun section => classify (wrap section))
    (sections (js "창세기 1장 1절
태초에 하나님이
하늘과 땅을 창조하셨습니다.
--------------------
창세기 1장 2절
땅은 형태가 없고 비어 있었으며"))
  = [(js "1", [js "태초에 하나님이"; js "하늘과 땅을 창조하셨습니다."]);
     (js "2", [js "땅은 형태가 없고 비어 있었으며"])].
Proof. reflexivity. Qed.

End Classifier.

(** C5: a wrapped line that contains the header and the verse suffix, the
    header not being followed by a space, is taken as the title, but the
    header is not stripped from it: only the header followed by a space is
    removed, so the title keeps the header where stripping the detected
    header and the suffix would leave the bare verse number. *)
Theorem classify_header_without_space :
  let line := js "창세기 1장3절" in
  wrap line = [line]
  /\ includes line header = true
  /\ includes line verseSuffix = true
  /\ classify (wrap line) = (js "창세기 1장3", [])
  /\ trim (replaceEmpty (replaceEmpty line header) verseSuffix) = js "3".
Proof. cbv zeta. repeat split. Qed.

(** ** The settings handlers *)

Section SettingsHandlers.

Lemma nonNumeric_parseInt (value : jsstring) :
  nonNumeric value = true -> parseInt value = NaN.
Proof.
  unfold nonNumeric, parseInt. cbv zeta.
  set (S1 := match trimStart value with
             | [] => []
             | c :: tl => if ((c =? 43) || (c =? 45))%N then tl else trimStart value
             end).
  assert (E : match trimStart value with
              | [] => trimStart value
              | c :: tl => if ((c =? 43) || (c =? 45))%N then tl else trimStart value
              end = S1).
  { subst S1. now destruct (trimStart value). }
  rewrite E. clearbody S1. clear E.
  destruct S1 as [|c tl]; [reflexivity|].
  intros Hc. apply negb_true_iff in Hc.
  assert (Hd : digitValue 10 c = None).
  { unfold digitValue. rewrite Hc.
    destruct ((97 <=? c) && (c <=? 122))%N eqn:E1.
    - apply andb_true_iff in E1. destruct E1 as [E1 _]. apply N.leb_le in E1.
      destruct (c - 97 + 10 <? 10)%N eqn:E2; [|reflexivity].
      apply N.ltb_lt in E2. lia.
    - destruct ((65 <=? c) && (c <=? 90))%N eqn:E3; [|reflexivity].
      apply andb_true_iff in E3. destruct E3 as [E3 _]. apply N.leb_le in E3.
      destruct (c - 65 + 10 <? 10)%N eqn:E2; [|reflexivity].
      apply N.ltb_lt in E2. lia. }
  assert (H0 : (c =? 48)%N = false).
  { apply N.eqb_neq. intros ->. discriminate. }
  destruct tl as [|c1 tl]; cbn [digitsPrefix]; rewrite ?H0; cbn [andb digitsPrefix];
    now rewrite Hd.
Qed.

Lemma getField_onChange (f : Field) (value : jsstring) (settings : Settings) :
  getField f (onChange f value settings) = orDefault (parseInt value) (fieldDefault f).
Proof. destruct f; reflexivity. Qed.

Lemma getField_onChange_other (f g : Field) (value : jsstring) (settings : Settings) :
  g <> f -> getField g (onChange f value settings) = getField g settings.
Proof. destruct f, g; intros H; try reflexivity; congruence. Qed.

Lemma fieldDefault_nonzero (f : Field) : fieldDefault f <> 0%Z.
Proof. destruct f; discriminate. Qed.

Lemma orDefault_nonzero (n : Number) (d : Z) : d <> 0%Z -> orDefault n d <> 0%Z.
Proof.
  intros Hd. destruct n as [|z]; simpl; [exact Hd|].
  destruct (z =? 0)%Z eqn:E; simpl; [exact Hd|]. now apply Z.eqb_neq.
Qed.

Lemma applyEdits_nonzero (edits : list (Field * jsstring)) :
  forall settings,
    (forall f, getField f settings <> 0%Z) ->
    forall f, getField f (applyEdits edits settings) <> 0%Z.
Proof.
  unfold applyEdits.
  induction edits as [|[g value] edits IH]; intros settings Hs f; simpl.
  - apply Hs.
  - apply IH. intros f'.
    destruct (Field_eq_dec f' g) as [-> | Hne].
    + rewrite getField_onChange. apply orDefault_nonzero, fieldDefault_nonzero.
    + rewrite getField_onChange_other by exact Hne. apply Hs.
Qed.

End SettingsHandlers.

(** C8: for each of the four settings fields, a value with no number to
    read (the empty string among them) sets the field to its default and
    leaves the other fields alone; for [contentFontSize] the default is
    62. *)
Theorem onChange_nonNumeric_default
  (f : Field) (value : jsstring) (settings : Settings) :
  nonNumeric value = true ->
  getField f (onChange f value settings) = fieldDefault f
  /\ (forall g, g <> f -> getField g (onChange f value settings) = getField g settings)
  /\ contentFontSize (onChangeContentFontSize value settings) = 62%Z.
Proof.
  intros Hv. pose proof (nonNumeric_parseInt _ Hv) as Hnan. repeat split.
  - now rewrite getField_onChange, Hnan.
  - intros g Hg. now apply getField_onChange_other.
  - cbn [onChangeContentFontSize contentFontSize]. now rewrite Hnan.
Qed.

Lemma onChange_nonNumeric_default_witness :
  getField ContentFontSize
    (onChange ContentFontSize (js "abc")
       {| contentFontSize := 80; numberFontSize := 30;
          numberContentSpacing := 40; lineSpacing := 90 |})
  = fieldDefault ContentFontSize
  /\ (forall g, g <> ContentFontSize ->
        getField g
          (onChange ContentFontSize (js "abc")
             {| contentFontSize := 80; numberFontSize := 30;
                numberContentSpacing := 40; lineSpacing := 90 |})
        = getField g
            {| contentFontSize := 80; numberFontSize := 30;
               numberContentSpacing := 40; lineSpacing := 90 |})
  /\ contentFontSize
       (onChangeContentFontSize (js "abc")
          {| contentFontSize := 80; numberFontSize := 30;
             numberContentSpacing := 40; lineSpacing := 90 |})
     = 62%Z.
Proof.
  apply (@onChange_nonNumeric_default ContentFontSize (js "abc")
           {| contentFontSize := 80; numberFontSize := 30;
              numberContentSpacing := 40; lineSpacing := 90 |}).
  vm_compute. reflexivity.
Defined.

(** C10: a handler stores the parsed value unless it is NaN or 0, in which
    case it stores the field's default; so no field is ever 0, neither after
    one edit nor after any sequence of edits of the initial settings; ["0"]
    and the empty string give the default, and a negative value such as
    ["-5"] is stored as it is. *)
Theorem onChange_parseInt_or_default
  (f : Field) (value : jsstring) (settings : Settings) :
  getField f (onChange f value settings)
  = match parseInt value with
    | NaN => fieldDefault f
    | Num z => if (z =? 0)%Z then fieldDefault f else z
    end
  /\ getField f (onChange f value settings) <> 0%Z
  /\ (forall edits g, getField g (applyEdits edits defaultSettings) <> 0%Z)
  /\ getField f (onChange f (js "0") settings) = fieldDefault f
  /\ getField f (onChange f (js "") settings) = fieldDefault f
  /\ getField f (onChange f (js "-5") settings) = (-5)%Z.
Proof.
  repeat split.
  - rewrite getField_onChange. destruct (parseInt value) as [|z]; [reflexivity|].
    simpl. now destruct (z =? 0)%Z.
  - rewrite getField_onChange. apply orDefault_nonzero, fieldDefault_nonzero.
  - intros edits g. apply applyEdits_nonzero. intros f'. apply fieldDefault_nonzero.
  - now rewrite getField_onChange.
  - now rewrite getField_onChange.
  - now rewrite getField_onChange.
Qed.

(** ** Further properties of the wrapper, the classifier and the splitter *)

Section MoreText.

Lemma greedyWrap_nonempty (chars : jsstring) :
  forall accumulator, Forall (fun l => l <> []) (greedyWrap accumulator chars).
Proof.
  induction chars as [|c rest IH]; intros acc; cbn [greedyWrap].
  - destruct acc; cbn [truthy]; constructor; [discriminate | constructor].
  - destruct (25 <? length (acc ++ [c])) eqn:E; [|apply IH].
    constructor; [|apply IH].
    intros ->. cbn in E. discriminate.
Qed.

Lemma chunks25_nth (j : nat) :
  forall fuel s,
    length s <= fuel -> 25 * j < length s ->
    nth_error (chunks25 fuel s) j = Some (firstn 25 (skipn (25 * j) s)).
Proof.
  induction j as [|j IH]; intros fuel s Hfuel Hj.
  - destruct s as [|x s]; [simpl in Hj; lia|].
    destruct fuel as [|fuel]; [simpl in Hfuel; lia|]. reflexivity.
  - destruct s as [|x s]; [simpl in Hj; lia|].
    destruct fuel as [|fuel]; [simpl in Hfuel; lia|].
    cbn [chunks25 nth_error].
    rewrite IH.
    + rewrite skipn_skipn. do 3 f_equal. lia.
    + rewrite length_skipn. cbn [length] in *. lia.
    + rewrite length_skipn. cbn [length] in *. lia.
Qed.

Lemma chunks25_length (fuel : nat) :
  forall s, length s <= fuel -> length (chunks25 fuel s) = (length s + 24) / 25.
Proof.
  induction fuel as [|fuel IH]; intros s Hfuel.
  - destruct s; [reflexivity | simpl in Hfuel; lia].
  - destruct s as [|x s]; [reflexivity|].
    cbn [chunks25 length]. rewrite IH by (rewrite length_skipn; cbn [length] in *; lia).
    rewrite length_skipn. cbn [length] in *.
    destruct (Nat.le_gt_cases 25 (S (length s))) as [Hge | Hlt].
    + replace (S (length s) + 24) with ((S (length s) - 25 + 24) + 1 * 25) by lia.
      rewrite Nat.div_add by lia. lia.
    + replace (S (length s) - 25) with 0 by lia.
      transitivity 1; [reflexivity|].
      apply (Nat.div_unique _ 25 1 (length s)); lia.
Qed.

Lemma trimStart_split (s : jsstring) :
  exists ws, s = ws ++ trimStart s.
Proof.
  induction s as [|c s (ws & E)]; [exists []; reflexivity|].
  cbn [trimStart]. destruct (isWhiteSpace c).
  - exists (c :: ws). cbn [app]. now rewrite <- E.
  - exists []. reflexivity.
Qed.

Lemma trimStart_fixed (s : jsstring) :
  match s with [] => True | c :: _ => isWhiteSpace c = false end ->
  trimStart s = s.
Proof. destruct s as [|c s]; [reflexivity|]. cbn [trimStart]. now intros ->. Qed.

Lemma trim_idempotent (s : jsstring) : trim (trim s) = trim s.
Proof.
  unfold trim, trimEnd.
  set (x := trimStart s).
  set (y := trimStart (rev x)).
  assert (Hy : match y with [] => True | c :: _ => isWhiteSpace c = false end)
    by apply trimStart_head.
  assert (Hry : match rev y with [] => True | c :: _ => isWhiteSpace c = false end).
  { destruct (trimStart_split (rev x)) as (ws & E). fold y in E.
    apply (f_equal (@rev _)) in E. rewrite rev_involutive, rev_app_distr in E.
    pose proof (trimStart_head s) as Hx. fold x in Hx.
    destruct (rev y) as [|c r]; [exact I|].
    rewrite E in Hx. exact Hx. }
  rewrite (trimStart_fixed _ Hry), rev_involutive.
  now rewrite (trimStart_fixed _ Hy).
Qed.

Lemma wellDelimited_chunks (rest : list (nat * jsstring)) :
  forall c,
    wellDelimited c rest = true ->
    Forall (fun s => includes s (hyphens 20) = false) (c :: map snd rest)
    /\ Forall (fun run => 20 <= fst run) rest.
Proof.
  induction rest as [|[n c'] rest IH]; intros c Hwd.
  - split; [|constructor]. constructor; [|constructor].
    now apply (@wellDelimited_includes c []).
  - pose proof (@wellDelimited_includes _ _ Hwd) as Hc.
    cbn [wellDelimited] in Hwd.
    apply andb_true_iff in Hwd. destruct Hwd as [_ Hwd].
    apply andb_true_iff in Hwd. destruct Hwd as [Hwd Hrest].
    apply andb_true_iff in Hwd. destruct Hwd as [Hwd _].
    apply andb_true_iff in Hwd. destruct Hwd as [Hn _].
    apply Nat.leb_le in Hn.
    destruct (IH c' Hrest) as [Hchunks Hruns].
    split; constructor; auto.
Qed.

End MoreText.

(** X1: no wrapped line is empty, whatever the section. *)
Theorem wrap_no_empty_line (section : jsstring) :
  Forall (fun wrappedLine => wrappedLine <> []) (wrap section).
Proof.
  rewrite wrap_flat_map. apply Forall_flat_map, Forall_forall.
  intros line _. apply greedyWrap_nonempty.
Qed.

(** X2: a non-blank line of [n] code units is pushed as ceil(n / 25) wrapped
    lines, the [j]-th of them (from 0) being the code units 25j to 25j + 24
    of the line. *)
Theorem wrapLine_blocks (wrappedLines : list jsstring) (line : jsstring) :
  trim line <> [] ->
  exists produced,
    wrapLine wrappedLines line = wrappedLines ++ produced
    /\ length produced = (length line + 24) / 25
    /\ forall j, 25 * j < length line ->
                 nth_error produced j = Some (firstn 25 (skipn (25 * j) line)).
Proof.
  intros Hline. exists (chunks25 (length line) line). split; [|split].
  - rewrite wrapLine_greedy, greedyWrap_blocks.
    destruct (trim line); [congruence | reflexivity].
  - apply chunks25_length. lia.
  - intros j Hj. apply chunks25_nth; [lia | exact Hj].
Qed.

Lemma wrapLine_blocks_witness :
  exists produced,
    wrapLine [] (js "abcdefghijklmnopqrstuvwxyz0123456789") = [] ++ produced
    /\ length produced = (length (js "abcdefghijklmnopqrstuvwxyz0123456789") + 24) / 25
    /\ forall j, 25 * j < length (js "abcdefghijklmnopqrstuvwxyz0123456789") ->
                 nth_error produced j
                 = Some (firstn 25 (skipn (25 * j) (js "abcdefghijklmnopqrstuvwxyz0123456789"))).
Proof.
  apply (@wrapLine_blocks [] (js "abcdefghijklmnopqrstuvwxyz0123456789")).
  vm_compute. discriminate.
Defined.

(** X3: the title is the stripped last wrapped line that has both the header
    and the suffix (a later title line replaces an earlier one), and it is
    empty when there is none; the content lines are the other wrapped lines,
    trimmed, without the blank ones, in their order. *)
Theorem classify_last_title_wins (wrappedLines : list jsstring) :
  classify wrappedLines
  = (match rev (filter isTitleLine wrappedLines) with
     | [] => []
     | line :: _ => stripTitle line
     end,
     filter truthy
       (map trim (filter (fun line => negb (isTitleLine line)) wrappedLines))).
Proof. apply classify_title_and_content. Qed.

(** X4: the title and the content lines carry no white space at either end,
    and no content line is empty. *)
Theorem classify_lines_trimmed (wrappedLines : list jsstring) :
  trim (fst (classify wrappedLines)) = fst (classify wrappedLines)
  /\ Forall (fun contentLine => contentLine <> [] /\ trim contentLine = contentLine)
       (snd (classify wrappedLines)).
Proof.
  rewrite classify_title_and_content. cbn [fst snd]. split.
  - destruct (rev (filter isTitleLine wrappedLines)); [reflexivity|].
    apply trim_idempotent.
  - apply Forall_forall. intros l Hl. apply filter_In in Hl.
    destruct Hl as [Hin Hl]. apply in_map_iff in Hin.
    destruct Hin as (x & <- & _). split.
    + destruct (trim x); [discriminate | discriminate].
    + apply trim_idempotent.
Qed.

(** X5: no section contains 20 consecutive hyphens and no section is
    blank. *)
Theorem sections_without_delimiter (text : jsstring) :
  Forall (fun section => includes section (hyphens 20) = false /\ trim section <> [])
    (sections text).
Proof.
  destruct (delimited_complete text) as (c & rest & Hwd & <-).
  unfold sections. rewrite (splitDelimiter_delimited _ _ Hwd).
  destruct (wellDelimited_chunks _ _ Hwd) as [Hchunks _].
  apply Forall_forall. intros s Hs. apply filter_In in Hs. destruct Hs as [Hin Hs].
  rewrite Forall_forall in Hchunks. split; [now apply Hchunks|].
  destruct (trim s); [discriminate | discriminate].
Qed.

(** X6: the split drops nothing but delimiter runs: putting a run of 20 or
    more hyphens back between each two neighbouring chunks of the split gives
    the text. *)
Theorem splitDelimiter_loses_only_runs (text : jsstring) :
  exists c rest,
    splitDelimiter text = c :: map snd rest
    /\ Forall (fun run => 20 <= fst run) rest
    /\ delimited c rest = text.
Proof.
  destruct (delimited_complete text) as (c & rest & Hwd & E).
  exists c, rest. split; [|split].
  - rewrite <- E. now apply splitDelimiter_delimited.
  - now apply (wellDelimited_chunks _ _ Hwd).
  - exact E.
Qed.

(** ** Further properties of [processFile] *)

Section MoreBatch.

Variable backend : Canvas.Backend.

Lemma processFile_frame (st : State) :
  file (processFile backend st) = file st
  /\ settings (processFile backend st) = settings st.
Proof.
  unfold processFile. destruct (file st) as [f|] eqn:E; [|now rewrite E].
  cbn. destruct (tryProcess backend f (settings st)); cbn; auto.
Qed.

Lemma processFile_images (st : State) (f : File) :
  file st = Some f ->
  images (processFile backend st)
  = match tryProcess backend f (settings st) with
    | Ok generatedImages => generatedImages
    | Throw => []
    end.
Proof.
  intros E. unfold processFile. rewrite E. cbn.
  destruct (tryProcess backend f (settings st)); reflexivity.
Qed.

End MoreBatch.

(** X7: when reading the file fails ([file.text()] rejects), [processFile]
    shows the processing-failed alert, leaves no image, not even those of an
    earlier run, and clears the processing flag. *)
Theorem processFile_unreadable_file
  (backend : Canvas.Backend) (st : State) (f : File) :
  file st = Some f ->
  text f = Throw ->
  processFile backend st = failedState st.
Proof.
  intros Hfile Htext. unfold processFile, tryProcess.
  rewrite Hfile. cbn. rewrite Htext. reflexivity.
Qed.

Lemma processFile_unreadable_file_witness :
  processFile starBackend
    {| file := Some {| name := "verses.txt"; text := Throw |};
       processing := false; images := [js "earlier"];
       settings := defaultSettings; alerts := [] |}
  = failedState
      {| file := Some {| name := "verses.txt"; text := Throw |};
         processing := false; images := [js "earlier"];
         settings := defaultSettings; alerts := [] |}.
Proof.
  apply (@processFile_unreadable_file starBackend _
           {| name := "verses.txt"; text := Throw |}); reflexivity.
Defined.

(** X8: generating again from the same file and settings gives the same
    images: [processFile] changes neither the file nor the settings, and the
    images it leaves depend on nothing else. *)
Theorem processFile_regenerate (backend : Canvas.Backend) (st : State) :
  images (processFile backend (processFile backend st))
  = images (processFile backend st)
  /\ file (processFile backend st) = file st
  /\ settings (processFile backend st) = settings st.
Proof.
  destruct (processFile_frame backend st) as [Hfile Hsettings].
  split; [|auto].
  destruct (file st) as [f|] eqn:E.
  - rewrite (@processFile_images backend (processFile backend st) f)
      by (now rewrite Hfile).
    rewrite Hsettings. symmetry. now apply processFile_images.
  - assert (Hid : processFile backend st = st)
      by (unfold processFile; now rewrite E).
    now rewrite !Hid.
Qed.

(** ** Printing and parsing numbers *)

Section Numbers.

Lemma mathInt_app (radix : N) (ds : list N) (d : N) :
  mathInt radix (ds ++ [d]) = (mathInt radix ds * Z.of_N radix + Z.of_N d)%Z.
Proof. unfold mathInt. now rewrite fold_left_app. Qed.

Lemma digit_cases (d : N) :
  (d < 10)%N ->
  d = 0%N \/ d = 1%N \/ d = 2%N \/ d = 3%N \/ d = 4%N \/ d = 5%N
  \/ d = 6%N \/ d = 7%N \/ d = 8%N \/ d = 9%N.
Proof. lia. Qed.

Ltac each_digit H :=
  apply digit_cases in H;
  repeat (destruct H as [H | H]; [subst; reflexivity|]); subst; reflexivity.

Lemma digitValue_digitChar (d : N) :
  (d < 10)%N -> digitValue 10 (digitChar d) = Some d.
Proof. intros H. each_digit H. Qed.

Lemma isWhiteSpace_digitChar (d : N) :
  (d < 10)%N -> isWhiteSpace (digitChar d) = false.
Proof. intros H. each_digit H. Qed.

Lemma digitChar_not_sign (d : N) :
  (d < 10)%N -> ((digitChar d =? 0x2B) || (digitChar d =? 0x2D))%N = false.
Proof. intros H. each_digit H. Qed.

Lemma digitChar_not_x (d : N) :
  (d < 10)%N -> ((digitChar d =? 0x78) || (digitChar d =? 0x58))%N = false.
Proof. intros H. each_digit H. Qed.

Lemma digitChar_not_minus (d : N) :
  (d < 10)%N -> (digitChar d =? 0x2D)%N = false.
Proof. intros H. each_digit H. Qed.

(** A code unit that is not a decimal digit ends the digits of radix 10. *)
Lemma digitValue_not_digit (c : JS.char) :
  ((0x30 <=? c) && (c <=? 0x39))%N = false -> digitValue 10 c = None.
Proof.
  intros Hc. unfold digitValue. rewrite Hc.
  destruct ((97 <=? c) && (c <=? 122))%N eqn:E1.
  - apply andb_true_iff in E1. destruct E1 as [E1 _]. apply N.leb_le in E1.
    destruct (c - 97 + 10 <? 10)%N eqn:E2; [|reflexivity].
    apply N.ltb_lt in E2. lia.
  - destruct ((65 <=? c) && (c <=? 90))%N eqn:E3; [|reflexivity].
    apply andb_true_iff in E3. destruct E3 as [E3 _]. apply N.leb_le in E3.
    destruct (c - 65 + 10 <? 10)%N eqn:E2; [|reflexivity].
    apply N.ltb_lt in E2. lia.
Qed.

Lemma digitsPrefix_digits (ds : list N) (rest : jsstring) :
  Forall (fun d => (d < 10)%N) ds -> endsNumber rest ->
  digitsPrefix 10 (map digitChar ds ++ rest) = ds.
Proof.
  intros Hds Hrest. induction Hds as [|d ds Hd _ IH]; cbn [map app digitsPrefix].
  - destruct rest as [|c tl]; [reflexivity|]. cbn [digitsPrefix].
    destruct Hrest as [Hc _]. now rewrite (digitValue_not_digit _ Hc).
  - now rewrite (digitValue_digitChar Hd), IH.
Qed.

Lemma parseInt_digits (ds : list N) (rest : jsstring) :
  ds <> [] -> Forall (fun d => (d < 10)%N) ds -> endsNumber rest ->
  parseInt (map digitChar ds ++ rest) = Num (mathInt 10 ds)
  /\ parseInt (0x2D%N :: map digitChar ds ++ rest) = Num (- mathInt 10 ds).
Proof.
  intros Hne Hds Hrest.
  pose proof (digitsPrefix_digits rest Hds Hrest) as Hprefix.
  destruct ds as [|d ds]; [contradiction|].
  pose proof (Forall_inv Hds) as Hd.
  assert (Hhex : forall tl,
             tl = map digitChar ds ++ rest ->
             match tl with
             | c1 :: tl' =>
                 ((digitChar d =? 0x30) && ((c1 =? 0x78) || (c1 =? 0x58)))%N = false
             | [] => True
             end).
  { intros tl ->. destruct ds as [|d1 ds]; cbn [map app].
    - destruct rest as [|c tl']; [exact I|].
      destruct Hrest as [_ Hx]. rewrite Hx. apply andb_false_r.
    - rewrite digitChar_not_x; [apply andb_false_r|].
      apply (Forall_inv (Forall_inv_tail Hds)). }
  cbn [map app] in *.
  split.
  - unfold parseInt. cbn [trimStart].
    rewrite (isWhiteSpace_digitChar Hd), (digitChar_not_sign Hd), (digitChar_not_minus Hd).
    specialize (Hhex _ eq_refl).
    destruct (map digitChar ds ++ rest) as [|c1 tl].
    + rewrite Hprefix. f_equal; lia.
    + rewrite Hhex, Hprefix. f_equal; lia.
  - unfold parseInt. cbn [trimStart].
    change (isWhiteSpace 45%N) with false. cbn [N.eqb Pos.eqb orb].
    specialize (Hhex _ eq_refl).
    destruct (map digitChar ds ++ rest) as [|c1 tl].
    + rewrite Hprefix. f_equal; lia.
    + rewrite Hhex, Hprefix. f_equal; lia.
Qed.

(** The digits [digitsOf] puts in front of [acc]. *)
Lemma digitsOf_digits (fuel : nat) :
  forall n acc,
    (Z.of_N n < 2 ^ Z.of_nat fuel)%Z ->
    exists ds,
      digitsOf fuel n acc = map digitChar ds ++ acc
      /\ Forall (fun d => (d < 10)%N) ds
      /\ mathInt 10 ds = Z.of_N n
      /\ (n <> 0%N -> ds <> [])
      /\ (n = 0%N -> ds = [])
      /\ ((n < 10)%N -> length ds <= 1)
      /\ ((n < 100)%N -> length ds <= 2).
Proof.
  induction fuel as [|fuel IH]; intros n acc Hn.
  - exists []. change (2 ^ Z.of_nat 0)%Z with 1%Z in Hn.
    assert (n = 0%N) by lia. subst n. repeat split; auto; cbn; lia.
  - cbn [digitsOf]. destruct (n =? 0)%N eqn:E0.
    + apply N.eqb_eq in E0. subst n. exists []. repeat split; auto; cbn; lia.
    + apply N.eqb_neq in E0.
      assert (Hq : (Z.of_N (n / 10) < 2 ^ Z.of_nat fuel)%Z).
      { rewrite N2Z.inj_div. apply Z.div_lt_upper_bound; [lia|].
        rewrite Nat2Z.inj_succ, Z.pow_succ_r in Hn by lia. lia. }
      destruct (IH (n / 10)%N (digitChar (n mod 10) :: acc) Hq)
        as (ds & Eds & Hds & Hval & Hnz & Hz & Hlen1 & Hlen2).
      exists (ds ++ [(n mod 10)%N]). split; [|split; [|split; [|split; [|split; [|split]]]]].
      * rewrite Eds, map_app, <- app_assoc. reflexivity.
      * apply Forall_app. split; [exact Hds|].
        constructor; [|constructor]. apply N.mod_lt. lia.
      * rewrite mathInt_app, Hval, <- N2Z.inj_mul, <- N2Z.inj_add.
        f_equal. rewrite N.mul_comm. symmetry. apply N.div_mod. lia.
      * intros _ Habs. destruct ds; discriminate.
      * intros Habs. contradiction.
      * intros H10. rewrite length_app. cbn [length].
        rewrite Hz; [cbn; lia|]. apply N.div_small. exact H10.
      * intros H100. rewrite length_app. cbn [length].
        assert (Hq10 : (n / 10 < 10)%N) by (apply N.Div0.div_lt_upper_bound; lia).
        specialize (Hlen1 Hq10). lia.
Qed.

Lemma size_nat_bound (p : positive) :
  (Z.of_N (Npos p) < 2 ^ Z.of_nat (Pos.size_nat p))%Z.
Proof.
  cbn [Z.of_N].
  induction p as [p IH | p IH |]; cbn [Pos.size_nat].
  - rewrite Nat2Z.inj_succ, Z.pow_succ_r, Pos2Z.inj_xI by lia. lia.
  - rewrite Nat2Z.inj_succ, Z.pow_succ_r, Pos2Z.inj_xO by lia. lia.
  - reflexivity.
Qed.

Lemma numberToString_digits (p : positive) :
  exists ds,
    digitsOf (Pos.size_nat p) (Npos p) [] = map digitChar ds
    /\ ds <> []
    /\ Forall (fun d => (d < 10)%N) ds
    /\ mathInt 10 ds = Zpos p
    /\ ((Zpos p < 100)%Z -> length ds <= 2).
Proof.
  assert (Hp : (Z.of_N (Npos p) < 2 ^ Z.of_nat (Pos.size_nat p))%Z)
    by apply size_nat_bound.
  destruct (@digitsOf_digits (Pos.size_nat p) (Npos p) [] Hp)
    as (ds & Eds & Hds & Hval & Hnz & _ & _ & Hlen).
  exists ds. rewrite app_nil_r in Eds.
  split; [exact Eds|]. split; [apply Hnz; discriminate|].
  split; [exact Hds|]. split; [exact Hval|].
  intros H. apply Hlen. lia.
Qed.

(** Parsing a printed integer gives the integer back, whatever follows it
    that does not continue the number. *)
Lemma parseInt_numberToString (z : Z) (rest : jsstring) :
  endsNumber rest -> parseInt (numberToString z ++ rest) = Num z.
Proof.
  intros Hrest. destruct z as [|p|p]; cbn [numberToString].
  - apply (@parseInt_digits [0%N] rest); [discriminate | | exact Hrest].
    constructor; [lia | constructor].
  - destruct (numberToString_digits p) as (ds & -> & Hne & Hds & Hval & _).
    rewrite <- Hval. now apply parseInt_digits.
  - destruct (numberToString_digits p) as (ds & -> & Hne & Hds & Hval & _).
    change (Z.neg p) with (- Z.pos p)%Z. rewrite <- Hval.
    now apply parseInt_digits.
Qed.

End Numbers.

(** X9: typing into a settings input the value it displays changes nothing,
    as long as the value is not 0 (which the handlers never store) and is an
    integer a Number holds exactly (at most 2^53 in absolute value), so that
    it is displayed with its own digits. *)
Theorem onChange_displayed_value (f : Field) (settings : Settings) :
  getField f settings <> 0%Z ->
  (Z.abs (getField f settings) <= 2 ^ 53)%Z ->
  onChange f (numberToString (getField f settings)) settings = settings.
Proof.
  intros Hnz _.
  assert (E : forall z d, z <> 0%Z -> orDefault (parseInt (numberToString z)) d = z).
  { intros z d Hz. rewrite <- (app_nil_r (numberToString z)).
    rewrite (@parseInt_numberToString z [] I). cbn [orDefault toBoolean].
    apply Z.eqb_neq in Hz. now rewrite Hz. }
  destruct settings as [cfs nfs ncs ls].
  destruct f;
    cbn [getField contentFontSize numberFontSize numberContentSpacing lineSpacing] in Hnz;
    cbn [onChange getField contentFontSize numberFontSize numberContentSpacing
           lineSpacing];
    unfold onChangeContentFontSize, onChangeNumberFontSize,
      onChangeNumberContentSpacing, onChangeLineSpacing;
    cbn [contentFontSize numberFontSize numberContentSpacing lineSpacing];
    now rewrite (E _ _ Hnz).
Qed.

Lemma onChange_displayed_value_witness :
  onChange LineSpacing
    (numberToString
       (getField LineSpacing
          {| contentFontSize := 80; numberFontSize := 30;
             numberContentSpacing := -4; lineSpacing := 105 |}))
    {| contentFontSize := 80; numberFontSize := 30;
       numberContentSpacing := -4; lineSpacing := 105 |}
  = {| contentFontSize := 80; numberFontSize := 30;
       numberContentSpacing := -4; lineSpacing := 105 |}.
Proof.
  apply (@onChange_displayed_value LineSpacing
           {| contentFontSize := 80; numberFontSize := 30;
              numberContentSpacing := -4; lineSpacing := 105 |});
    vm_compute; discriminate.
Defined.

(** X10: [parseInt] reads a printed integer of at most 2^53 in absolute
    value back and stops at the first code unit that does not continue it: a
    value such as ["62.9"] or ["62px"] is read as 62, a value such as
    ["-7.5"] as -7. *)
Theorem parseInt_integer_part (z : Z) (rest : jsstring) :
  (Z.abs z <= 2 ^ 53)%Z ->
  endsNumber rest ->
  parseInt (numberToString z ++ rest) = Num z.
Proof. intros _ Hrest. now apply parseInt_numberToString. Qed.

Lemma parseInt_integer_part_witness :
  parseInt (numberToString (-7) ++ js ".5") = Num (-7).
Proof.
  apply (@parseInt_integer_part (-7) (js ".5")).
  - vm_compute. discriminate.
  - vm_compute. split; reflexivity.
Defined.

(** X11: after any sequence of edits a field holds what its last edit
    stored, whatever the edits of the other fields, and its initial value
    when it was never edited. *)
Theorem applyEdits_last_edit_wins
  (edits : list (Field * jsstring)) (settings : Settings) (f : Field) :
  getField f (applyEdits edits settings)
  = match find (fun edit => if Field_eq_dec (fst edit) f then true else false)
            (rev edits) with
    | Some (_, value) => orDefault (parseInt value) (fieldDefault f)
    | None => getField f settings
    end.
Proof.
  induction edits as [|[g value] edits IH] using rev_ind; [reflexivity|].
  unfold applyEdits in *. rewrite fold_left_app, rev_app_distr.
  cbn [fold_left rev app find fst].
  destruct (Field_eq_dec g f) as [-> | Hne].
  - apply getField_onChange.
  - rewrite getField_onChange_other by congruence. exact IH.
Qed.

(** ** Downloads *)

Section Downloads.

Lemma mathInt_zeros (k : nat) (ds : list N) :
  mathInt 10 (repeat 0%N k ++ ds) = mathInt 10 ds.
Proof.
  unfold mathInt. rewrite fold_left_app. f_equal.
  induction k as [|k IH]; [reflexivity|]. cbn [repeat fold_left]. exact IH.
Qed.

Lemma numberToString_nat (i : nat) :
  exists ds,
    numberToString (Z.of_nat i) = map digitChar ds
    /\ ds <> []
    /\ Forall (fun d => (d < 10)%N) ds
    /\ mathInt 10 ds = Z.of_nat i
    /\ (i < 100 -> length ds <= 2).
Proof.
  destruct (Z.of_nat i) as [|p|p] eqn:E; [| |lia].
  - exists [0%N]. repeat split; try discriminate; auto.
    constructor; [lia | constructor].
  - destruct (numberToString_digits p) as (ds & Eds & Hne & Hds & Hval & Hlen).
    exists ds. repeat split; auto. intros Hi. apply Hlen. lia.
Qed.

Lemma downloadName_digits (img : jsstring) (i : nat) :
  exists ds,
    download (downloadImage img i) = map digitChar ds ++ js ".png"
    /\ ds <> []
    /\ Forall (fun d => (d < 10)%N) ds
    /\ mathInt 10 ds = Z.of_nat i
    /\ 2 <= length ds
    /\ (i < 100 -> length ds = 2).
Proof.
  destruct (numberToString_nat i) as (ds & Eds & Hne & Hds & Hval & Hlen).
  exists (repeat 0%N (2 - length ds) ++ ds).
  cbn [downloadImage download]. unfold padStart.
  rewrite Eds, length_map, map_app, map_repeat.
  split; [reflexivity|]. split; [destruct ds; [contradiction | now destruct (2 - _)]|].
  split; [apply Forall_app; split; [apply Forall_forall; intros d Hd;
                                     apply repeat_spec in Hd; subst; lia | exact Hds]|].
  split; [now rewrite mathInt_zeros|].
  rewrite length_app, repeat_length. split; [lia|].
  intros Hi. specialize (Hlen Hi). lia.
Qed.

Lemma downloadName_parse (img : jsstring) (i : nat) :
  parseInt (download (downloadImage img i)) = Num (Z.of_nat i).
Proof.
  destruct (downloadName_digits img i) as (ds & -> & Hne & Hds & Hval & _).
  rewrite <- Hval. apply parseInt_digits; auto.
  vm_compute. split; reflexivity.
Qed.

Lemma downloadAllFrom_nth (images : list jsstring) :
  forall idx k img,
    nth_error images k = Some img ->
    nth_error (downloadAllFrom idx images) k
    = Some ((Z.of_nat (idx + k) * 100)%Z, downloadImage img (idx + k + 1)).
Proof.
  induction images as [|x images IH]; intros idx k img Hk.
  - destruct k; discriminate.
  - destruct k as [|k]; cbn [downloadAllFrom nth_error] in *.
    + injection Hk as ->. now rewrite Nat.add_0_r.
    + rewrite (IH (S idx) k img Hk). do 3 f_equal; lia.
Qed.

Lemma downloadAllFrom_names (images : list jsstring) :
  forall idx,
    map (fun timer => download (snd timer)) (downloadAllFrom idx images)
    = map (fun i => download (downloadImage [] (i + 1))) (seq idx (length images)).
Proof.
  induction images as [|x images IH]; intros idx; [reflexivity|].
  cbn [downloadAllFrom map seq length snd]. now rewrite IH.
Qed.

Lemma digitsOf_zero (fuel : nat) (acc : jsstring) : digitsOf fuel 0 acc = acc.
Proof. destruct fuel; reflexivity. Qed.

(** The first digit of a positive number is not 0. *)
Lemma digitsOf_leading (fuel : nat) :
  forall n acc,
    (Z.of_N n < 2 ^ Z.of_nat fuel)%Z -> n <> 0%N ->
    exists d tl,
      digitsOf fuel n acc = digitChar d :: tl /\ d <> 0%N /\ (d < 10)%N.
Proof.
  induction fuel as [|fuel IH]; intros n acc Hn Hnz.
  - change (2 ^ Z.of_nat 0)%Z with 1%Z in Hn. lia.
  - cbn [digitsOf]. apply N.eqb_neq in Hnz. rewrite Hnz. apply N.eqb_neq in Hnz.
    destruct (N.eq_dec (n / 10) 0) as [Ez | Enz].
    + rewrite Ez, digitsOf_zero. exists (n mod 10)%N, acc.
      split; [reflexivity|].
      assert (Hsmall : (n < 10)%N).
      { destruct (N.lt_ge_cases n 10) as [H | H]; [exact H|].
        assert (1 <= n / 10)%N by (apply N.div_le_lower_bound; lia). lia. }
      rewrite N.mod_small by exact Hsmall. split; [exact Hnz | exact Hsmall].
    + apply IH; [|exact Enz].
      rewrite N2Z.inj_div. apply Z.div_lt_upper_bound; [lia|].
      rewrite Nat2Z.inj_succ, Z.pow_succ_r in Hn by lia. lia.
Qed.

Lemma digitChar_inj (a b : N) : digitChar a = digitChar b -> a = b.
Proof. unfold digitChar. lia. Qed.

(** The name in full: digits that stand for the index, two of them below
    100 (so a zero in front below 10), no zero in front from 10 on, then
    [.png]. *)
Lemma downloadName_canonical (img : jsstring) (i : nat) :
  exists ds,
    download (downloadImage img i) = map digitChar ds ++ js ".png"
    /\ Forall (fun d => (d < 10)%N) ds
    /\ mathInt 10 ds = Z.of_nat i
    /\ 2 <= length ds
    /\ (i < 100 -> length ds = 2)
    /\ (10 <= i -> hd 0%N ds <> 0%N).
Proof.
  destruct (numberToString_nat i) as (ds & Eds & Hne & Hds & Hval & Hlen).
  exists (repeat 0%N (2 - length ds) ++ ds).
  cbn [downloadImage download]. unfold padStart.
  rewrite Eds, length_map, map_app, map_repeat.
  split; [reflexivity|].
  split; [apply Forall_app; split; [apply Forall_forall; intros d Hd;
                                     apply repeat_spec in Hd; subst; lia | exact Hds]|].
  split; [now rewrite mathInt_zeros|].
  rewrite length_app, repeat_length. split; [lia|].
  split; [intros Hi; specialize (Hlen Hi); lia|].
  intros Hi.
  assert (Hlen2 : 2 <= length ds).
  { destruct ds as [|d [|d' ds']]; [contradiction| |cbn [length]; lia].
    exfalso. pose proof (Forall_inv Hds) as Hd. cbv beta in Hd.
    unfold mathInt in Hval. cbn [fold_left] in Hval. lia. }
  replace (2 - length ds) with 0 by lia. cbn [repeat app].
  destruct (Z.of_nat i) as [|p|p] eqn:Ei; [lia| |lia].
  cbn [numberToString] in Eds.
  destruct (@digitsOf_leading (Pos.size_nat p) (Npos p) [] (size_nat_bound p))
    as (d & tl & Ed & Hd0 & _); [discriminate|].
  rewrite Ed in Eds. destruct ds as [|d0 ds']; [discriminate|].
  cbn [map hd] in *. injection Eds as Ehd _.
  apply digitChar_inj in Ehd. congruence.
Qed.

End Downloads.

(** X12: a download is named after its index: the name is decimal digits
    that stand for the index, followed by [.png]; the digits are exactly two
    for an index below 100, with a zero in front below 10, and have no zero
    in front from 10 on; so the name reads back as the index, has six code
    units below 100, and differs for different indexes.  The link points at
    the image data.  (Indexes up to 2^53, which a Number holds exactly.) *)
Theorem downloadImage_name (imageData imageData' : jsstring) (index index' : nat) :
  (Z.of_nat index <= 2 ^ 53)%Z ->
  (Z.of_nat index' <= 2 ^ 53)%Z ->
  (exists ds,
      download (downloadImage imageData index) = map digitChar ds ++ js ".png"
      /\ Forall (fun d => (d < 10)%N) ds
      /\ mathInt 10 ds = Z.of_nat index
      /\ 2 <= length ds
      /\ (index < 100 -> length ds = 2)
      /\ (10 <= index -> hd 0%N ds <> 0%N))
  /\ (index < 10 ->
      download (downloadImage imageData index)
      = [0x30%N; (0x30 + N.of_nat index)%N] ++ js ".png")
  /\ parseInt (download (downloadImage imageData index)) = Num (Z.of_nat index)
  /\ href (downloadImage imageData index) = imageData
  /\ (index < 100 -> length (download (downloadImage imageData index)) = 6)
  /\ (download (downloadImage imageData index)
      = download (downloadImage imageData' index') -> index = index').
Proof.
  intros _ _. split; [apply downloadName_canonical|]. split; [|split; [|split; [|split]]].
  - intros Hi.
    destruct (downloadName_canonical imageData index)
      as (ds & -> & Hds & Hval & _ & Hlen & _).
    specialize (Hlen ltac:(lia)).
    destruct ds as [|a [|b [|c ds']]]; try discriminate Hlen.
    pose proof (Forall_inv Hds) as Ha.
    pose proof (Forall_inv (Forall_inv_tail Hds)) as Hb. cbv beta in Ha, Hb.
    unfold mathInt in Hval. cbn [fold_left] in Hval.
    assert (a = 0%N) by lia. assert (b = N.of_nat index) by lia. subst a b.
    reflexivity.
  - apply downloadName_parse.
  - reflexivity.
  - intros Hi.
    destruct (downloadName_canonical imageData index)
      as (ds & -> & _ & _ & _ & Hlen & _).
    rewrite length_app, length_map, (Hlen Hi). reflexivity.
  - intros E. apply (f_equal parseInt) in E.
    rewrite !downloadName_parse in E. injection E as E. lia.
Qed.

Lemma downloadImage_name_witness :
  (exists ds,
      download (downloadImage (js "data:a") 7) = map digitChar ds ++ js ".png"
      /\ Forall (fun d => (d < 10)%N) ds
      /\ mathInt 10 ds = Z.of_nat 7
      /\ 2 <= length ds
      /\ (7 < 100 -> length ds = 2)
      /\ (10 <= 7 -> hd 0%N ds <> 0%N))
  /\ (7 < 10 ->
      download (downloadImage (js "data:a") 7)
      = [0x30%N; (0x30 + N.of_nat 7)%N] ++ js ".png")
  /\ parseInt (download (downloadImage (js "data:a") 7)) = Num (Z.of_nat 7)
  /\ href (downloadImage (js "data:a") 7) = js "data:a"
  /\ (7 < 100 -> length (download (downloadImage (js "data:a") 7)) = 6)
  /\ (download (downloadImage (js "data:a") 7)
      = download (downloadImage (js "data:b") 12) -> 7 = 12).
Proof.
  apply (@downloadImage_name (js "data:a") (js "data:b") 7 12); vm_compute; discriminate.
Defined.

Example downloadImage_examples :
  download (downloadImage (js "data:a") 7) = js "07.png"
  /\ download (downloadImage (js "data:a") 12) = js "12.png"
  /\ download (downloadImage (js "data:a") 100) = js "100.png".
Proof. repeat split. Qed.

(** X13: [downloadAll] sets one timer per image, in the order of the
    images: the timer of the image at position [k] (from 0) fires after
    100 k milliseconds and downloads that image under the name of index
    k + 1; no two of the downloads have the same name. *)
Theorem downloadAll_timers (images : list jsstring) :
  (Z.of_nat (length images) < 10 ^ 21)%Z ->
  length (downloadAll images) = length images
  /\ (forall k img,
         nth_error images k = Some img ->
         nth_error (downloadAll images) k
         = Some ((Z.of_nat k * 100)%Z, downloadImage img (k + 1)))
  /\ NoDup (map (fun timer => download (snd timer)) (downloadAll images)).
Proof.
  intros _. unfold downloadAll. split; [|split].
  - generalize 0. induction images as [|x images IH]; intros idx; [reflexivity|].
    cbn [downloadAllFrom length]. now rewrite IH.
  - intros k img Hk. apply (downloadAllFrom_nth images 0 k Hk).
  - rewrite downloadAllFrom_names.
    apply NoDup_map_NoDup_ForallPairs; [|apply seq_NoDup].
    intros i j _ _ E. apply (f_equal parseInt) in E.
    rewrite !downloadName_parse in E. injection E as E. lia.
Qed.

Lemma downloadAll_timers_witness :
  length (downloadAll [js "data:a"; js "data:b"; js "data:c"]) = 3
  /\ (forall k img,
         nth_error [js "data:a"; js "data:b"; js "data:c"] k = Some img ->
         nth_error (downloadAll [js "data:a"; js "data:b"; js "data:c"]) k
         = Some ((Z.of_nat k * 100)%Z, downloadImage img (k + 1)))
  /\ NoDup (map (fun timer => download (snd timer))
              (downloadAll [js "data:a"; js "data:b"; js "data:c"])).
Proof.
  apply (@downloadAll_timers [js "data:a"; js "data:b"; js "data:c"]).
  vm_compute. reflexivity.
Defined.

Example downloadAll_example :
  map (fun timer => (fst timer, download (snd timer)))
    (downloadAll [js "data:a"; js "data:b"])
  = [(0%Z, js "01.png"); (100%Z, js "02.png")].
Proof. reflexivity. Qed.

(** ** The profile of the signed-in user *)

Section Profile.

Lemma eqString_refl (a : jsstring) : eqString a a = true.
Proof. unfold eqString. destruct (list_eq_dec N.eq_dec a a); congruence. Qed.

Lemma eqString_neq (a b : jsstring) : a <> b -> eqString a b = false.
Proof. unfold eqString. destruct (list_eq_dec N.eq_dec a b); congruence. Qed.

Lemma trackUsers_app (users : list (option Auth.User)) :
  forall ref calls,
    fold_left
      (fun '(ref, calls) user =>
         let '(ref', called) := trackUser ref user in (ref', calls ++ called))
      users (ref, calls)
    = (fst (trackUsers users ref), calls ++ snd (trackUsers users ref)).
Proof.
  unfold trackUsers.
  induction users as [|user users IH]; intros ref calls; cbn [fold_left].
  - now rewrite app_nil_r.
  - destruct (trackUser ref user) as [ref' called].
    rewrite IH, (IH ref' ([] ++ called)). cbn [fst snd app].
    now rewrite app_assoc.
Qed.

Lemma trackUsers_cons (user : option Auth.User) (users : list (option Auth.User))
  (ref : option jsstring) :
  trackUsers (user :: users) ref
  = (fst (trackUsers users (fst (trackUser ref user))),
     snd (trackUser ref user) ++ snd (trackUsers users (fst (trackUser ref user)))).
Proof.
  unfold trackUsers at 1. cbn [fold_left].
  destruct (trackUser ref user) as [ref' called]. cbn [fst snd].
  now rewrite trackUsers_app.
Qed.

Lemma trackUsers_same_uid (id : jsstring) (users : list (option Auth.User)) :
  Forall (fun user => exists u, user = Some u /\ Auth.uid u = id) users ->
  trackUsers users (Some id) = (Some id, []).
Proof.
  induction 1 as [|user users (u & -> & Hu) _ IH]; [reflexivity|].
  rewrite trackUsers_cons. cbn [trackUser]. rewrite Hu, eqString_refl.
  cbn [fst snd]. now rewrite IH.
Qed.

Lemma trackUsers_snoc (users : list (option Auth.User)) (user : option Auth.User)
  (ref : option jsstring) :
  trackUsers (users ++ [user]) ref
  = (fst (trackUser (fst (trackUsers users ref)) user),
     snd (trackUsers users ref) ++ snd (trackUser (fst (trackUsers users ref)) user)).
Proof.
  unfold trackUsers. rewrite fold_left_app. cbn [fold_left].
  destruct (fold_left _ users (ref, [])) as [ref' calls]. cbn [fst snd].
  now destruct (trackUser ref' user).
Qed.

End Profile.

(** X14: while a user stays signed in, the profile is synced once, however
    often the user object changes: for a run of user values with the same
    uid after a signed-out start, [syncUserProfile] is called with the first
    of them only.  After a sign-out the next sign-in is synced again, of the
    same user too. *)
Theorem trackUsers_one_sync_per_sign_in
  (u : Auth.User) (users : list (option Auth.User)) :
  Forall (fun user => exists u', user = Some u' /\ Auth.uid u' = Auth.uid u) users ->
  trackUsers (Some u :: users) None = (Some (Auth.uid u), [u])
  /\ trackUsers (Some u :: users ++ [None; Some u]) None
     = (Some (Auth.uid u), [u; u]).
Proof.
  intros Hsame. split.
  - rewrite trackUsers_cons. cbn [trackUser fst snd].
    now rewrite (trackUsers_same_uid Hsame).
  - change (Some u :: users ++ [None; Some u])
      with ((Some u :: users) ++ [None; Some u]).
    change [None; Some u] with ([None] ++ [Some u]).
    rewrite app_assoc, !trackUsers_snoc.
    rewrite trackUsers_cons. cbn [trackUser fst snd].
    now rewrite (trackUsers_same_uid Hsame).
Qed.

Lemma trackUsers_one_sync_per_sign_in_witness :
  trackUsers
    [Some {| Auth.uid := js "u1"; Auth.email := Some (js "a@b.c");
             Auth.displayName := None; Auth.photoURL := None |};
     Some {| Auth.uid := js "u1"; Auth.email := Some (js "a@b.c");
             Auth.displayName := Some (js "A"); Auth.photoURL := None |}]
    None
  = (Some (js "u1"),
     [{| Auth.uid := js "u1"; Auth.email := Some (js "a@b.c");
         Auth.displayName := None; Auth.photoURL := None |}])
  /\ trackUsers
       (Some {| Auth.uid := js "u1"; Auth.email := Some (js "a@b.c");
                Auth.displayName := None; Auth.photoURL := None |}
        :: [Some {| Auth.uid := js "u1"; Auth.email := Some (js "a@b.c");
                    Auth.displayName := Some (js "A"); Auth.photoURL := None |}]
           ++ [None;
               Some {| Auth.uid := js "u1"; Auth.email := Some (js "a@b.c");
                       Auth.displayName := None; Auth.photoURL := None |}])
       None
     = (Some (js "u1"),
        [{| Auth.uid := js "u1"; Auth.email := Some (js "a@b.c");
            Auth.displayName := None; Auth.photoURL := None |};
         {| Auth.uid := js "u1"; Auth.email := Some (js "a@b.c");
            Auth.displayName := None; Auth.photoURL := None |}]).
Proof.
  apply (@trackUsers_one_sync_per_sign_in
           {| Auth.uid := js "u1"; Auth.email := Some (js "a@b.c");
              Auth.displayName := None; Auth.photoURL := None |}
           [Some {| Auth.uid := js "u1"; Auth.email := Some (js "a@b.c");
                    Auth.displayName := Some (js "A"); Auth.photoURL := None |}]).
  constructor; [|constructor]. eexists. split; reflexivity.
Defined.

Section ProfileStore.

Lemma field_app (a b : Doc) (k : string) :
  field (a ++ b) k = match field a k with
                     | Some v => Some v
                     | None => field b k
                     end.
Proof.
  induction a as [|[k' v] a IH]; [reflexivity|]. cbn [app field].
  now destruct (String.eqb k' k).
Qed.

Lemma given_keys (data : Data) (k : string) :
  given data k = None -> existsb (String.eqb k) (map fst data) = false.
Proof.
  induction data as [|[k' fv] data IH]; [reflexivity|]. cbn [given map fst existsb].
  rewrite (String.eqb_sym k k'). destruct (String.eqb k' k); [discriminate|]. exact IH.
Qed.

Lemma field_kept (keys : list string) (old : Doc) (k : string) :
  existsb (String.eqb k) keys = false ->
  field (filter (fun '(k', _) => negb (existsb (String.eqb k') keys)) old) k
  = field old k.
Proof.
  intros Hk. induction old as [|[k' v] old IH]; [reflexivity|]. cbn [filter field].
  destruct (String.eqb k' k) eqn:E.
  - apply String.eqb_eq in E. subst k'. rewrite Hk. cbn [negb field].
    now rewrite String.eqb_refl.
  - destruct (negb (existsb (String.eqb k') keys)); [|exact IH].
    cbn [field]. now rewrite E.
Qed.

Lemma field_resolved (now : Z) (data : Data) (old : Doc) (k : string) :
  field (map (fun '(k, fv) => (k, resolve now (field old k) fv)) data) k
  = match given data k with
    | Some fv => Some (resolve now (field old k) fv)
    | None => None
    end.
Proof.
  induction data as [|[k' fv'] data IH]; [reflexivity|].
  cbn [given map field]. destruct (String.eqb k' k) eqn:Ek; [|exact IH].
  apply String.eqb_eq in Ek. now subst k'.
Qed.

(** A field of a merged document: written when [data] has it, kept
    otherwise. *)
Lemma field_merged (now : Z) (data : Data) (old : Doc) (k : string) :
  field (merged now data old) k
  = match given data k with
    | Some fv => Some (resolve now (field old k) fv)
    | None => field old k
    end.
Proof.
  unfold merged. rewrite field_app, field_resolved.
  destruct (given data k) as [fv|] eqn:E; [reflexivity|].
  apply field_kept, given_keys, E.
Qed.

Lemma put_same (id : jsstring) (d : Doc) (store : Store) : put id d store id = Some d.
Proof. unfold put. now rewrite eqString_refl. Qed.

Lemma put_other (id id' : jsstring) (d : Doc) (store : Store) :
  id <> id' -> put id d store id' = store id'.
Proof. intros H. unfold put. now rewrite (eqString_neq H). Qed.

Variable access : Access.
Variable user : Auth.User.

Hypothesis getDoc_ok : getDocError access (Auth.uid user) = None.
Hypothesis setDoc_ok : setDocError access (Auth.uid user) = None.

Lemma sync_new (now : Z) (store : Store) :
  store (Auth.uid user) = None ->
  syncUserProfile access now user store
  = (Resolved tt,
     put (Auth.uid user)
       (written now
          (baseData user
           ++ [("createdAt"%string, ServerTimestamp);
               ("lastLogin"%string, ServerTimestamp);
               ("loginCount"%string, Plain (VNumber 1))]))
       store).
Proof.
  intros Hnew. unfold syncUserProfile, trySync. cbv zeta.
  now rewrite getDoc_ok, Hnew, setDoc_ok.
Qed.

Lemma sync_existing (now : Z) (store : Store) (snapshot : Doc) :
  store (Auth.uid user) = Some snapshot ->
  syncUserProfile access now user store
  = (Resolved tt,
     put (Auth.uid user)
       (merged now
          (baseData user
           ++ [("lastLogin"%string, ServerTimestamp);
               ("loginCount"%string, Increment 1)])
          snapshot)
       store).
Proof.
  intros Hold. unfold syncUserProfile, trySync. cbv zeta.
  now rewrite getDoc_ok, Hold, setDoc_ok.
Qed.

(** Logins of a user whose document has a numeric [loginCount] add one to
    it each and leave [createdAt] alone. *)
Lemma syncAll_existing (times : list Z) :
  forall (store : Store) (d : Doc) (count : Z) (created : option Value),
    store (Auth.uid user) = Some d ->
    field d "loginCount" = Some (VNumber count) ->
    field d "createdAt" = created ->
    exists d',
      syncAll access times user store (Auth.uid user) = Some d'
      /\ field d' "loginCount" = Some (VNumber (count + Z.of_nat (length times)))
      /\ field d' "createdAt" = created
      /\ (times <> [] ->
          field d' "lastLogin" = Some (VTimestamp (last times 0%Z))
          /\ field d' "uid" = Some (VString (Auth.uid user))
          /\ field d' "email" = Some (VString (orEmpty (Auth.email user)))
          /\ field d' "displayName" = Some (VString (orEmpty (Auth.displayName user)))
          /\ field d' "photoURL" = Some (VString (orEmpty (Auth.photoURL user)))).
Proof.
  unfold syncAll.
  induction times as [|now times IH]; intros store d count created Hd Hcount Hcreated.
  - exists d. cbn [fold_left length]. rewrite Z.add_0_r.
    split; [exact Hd|]. split; [exact Hcount|]. split; [exact Hcreated|].
    intros Hne. contradiction.
  - cbn [fold_left]. rewrite (sync_existing now store Hd). cbn [snd].
    set (d1 := merged now _ d).
    destruct (IH (put (Auth.uid user) d1 store) d1 (count + 1)%Z created)
      as (d' & Hd' & Hc' & Hcr' & Hlast).
    + apply put_same.
    + subst d1. rewrite field_merged. cbn. now rewrite Hcount.
    + subst d1. rewrite field_merged. cbn. exact Hcreated.
    + exists d'. split; [exact Hd'|]. split; [|split; [exact Hcr'|]].
      * rewrite Hc'. do 2 f_equal. cbn [length]. lia.
      * intros _. destruct times as [|now' times'].
        -- cbn [fold_left] in Hd'. rewrite put_same in Hd'. injection Hd' as <-.
           subst d1. rewrite !field_merged. cbn. repeat split; reflexivity.
        -- apply Hlast. discriminate.
Qed.

(** The document of a new user after the logins at [first :: later]. *)
Lemma syncAll_new (first : Z) (later : list Z) (store : Store) :
  store (Auth.uid user) = None ->
  exists d,
    syncAll access (first :: later) user store (Auth.uid user) = Some d
    /\ field d "loginCount" = Some (VNumber (Z.of_nat (length (first :: later))))
    /\ field d "createdAt" = Some (VTimestamp first)
    /\ field d "lastLogin" = Some (VTimestamp (last (first :: later) 0%Z))
    /\ field d "uid" = Some (VString (Auth.uid user))
    /\ field d "email" = Some (VString (orEmpty (Auth.email user)))
    /\ field d "displayName" = Some (VString (orEmpty (Auth.displayName user)))
    /\ field d "photoURL" = Some (VString (orEmpty (Auth.photoURL user))).
Proof.
  intros Hnew. unfold syncAll. cbn [fold_left].
  rewrite (sync_new first store Hnew). cbn [snd].
  set (d1 := written first _).
  destruct (@syncAll_existing later (put (Auth.uid user) d1 store) d1 1%Z
              (Some (VTimestamp first)))
    as (d & Hd & Hcount & Hcreated & Hlast); try reflexivity.
  - apply put_same.
  - exists d. split; [exact Hd|]. split; [|split; [exact Hcreated|]].
    + rewrite Hcount. do 2 f_equal. cbn [length]. lia.
    + destruct later as [|t later'].
      * unfold syncAll in Hd. cbn [fold_left] in Hd. rewrite put_same in Hd.
        injection Hd as <-. repeat split.
      * apply Hlast. discriminate.
Qed.

End ProfileStore.

(** X15: the first login of a user creates the profile document with
    [loginCount] 1 and with [createdAt] and [lastLogin] both at the server
    time of the write; a null email, name or photo is stored as the empty
    string. *)
Theorem syncUserProfile_first_login
  (access : Access) (now : Z) (user : Auth.User) (store : Store) :
  getDocError access (Auth.uid user) = None ->
  setDocError access (Auth.uid user) = None ->
  store (Auth.uid user) = None ->
  exists d,
    fst (syncUserProfile access now user store) = Resolved tt
    /\ snd (syncUserProfile access now user store) (Auth.uid user) = Some d
    /\ field d "loginCount" = Some (VNumber 1)
    /\ field d "createdAt" = Some (VTimestamp now)
    /\ field d "lastLogin" = Some (VTimestamp now)
    /\ field d "uid" = Some (VString (Auth.uid user))
    /\ field d "email" = Some (VString (orEmpty (Auth.email user)))
    /\ field d "displayName" = Some (VString (orEmpty (Auth.displayName user)))
    /\ field d "photoURL" = Some (VString (orEmpty (Auth.photoURL user))).
Proof.
  intros Hget Hset Hnew. rewrite (@sync_new access user Hget Hset now store Hnew).
  eexists. split; [reflexivity|]. split; [apply put_same|].
  repeat split.
Qed.

Lemma syncUserProfile_first_login_witness :
  exists d,
    fst (syncUserProfile openAccess 10 alice emptyStore) = Resolved tt
    /\ snd (syncUserProfile openAccess 10 alice emptyStore) (Auth.uid alice) = Some d
    /\ field d "loginCount" = Some (VNumber 1)
    /\ field d "createdAt" = Some (VTimestamp 10)
    /\ field d "lastLogin" = Some (VTimestamp 10)
    /\ field d "uid" = Some (VString (Auth.uid alice))
    /\ field d "email" = Some (VString (orEmpty (Auth.email alice)))
    /\ field d "displayName" = Some (VString (orEmpty (Auth.displayName alice)))
    /\ field d "photoURL" = Some (VString (orEmpty (Auth.photoURL alice))).
Proof.
  apply (@syncUserProfile_first_login openAccess 10%Z alice emptyStore); reflexivity.
Defined.

(** X16: a later login of a user adds one to a numeric [loginCount] (and
    sets it to 1 when the document has none or it is not a number), sets
    [lastLogin] to the server time and rewrites the four profile fields
    [uid], [email], [displayName] and [photoURL] from the user (null as the
    empty string); every other field of the document, [createdAt] among
    them, stays as it was. *)
Theorem syncUserProfile_returning
  (access : Access) (now : Z) (user : Auth.User) (store : Store) (old : Doc) :
  getDocError access (Auth.uid user) = None ->
  setDocError access (Auth.uid user) = None ->
  store (Auth.uid user) = Some old ->
  exists d,
    fst (syncUserProfile access now user store) = Resolved tt
    /\ snd (syncUserProfile access now user store) (Auth.uid user) = Some d
    /\ field d "loginCount"
       = Some (VNumber (match field old "loginCount" with
                        | Some (VNumber count) => count + 1
                        | _ => 1
                        end))
    /\ field d "lastLogin" = Some (VTimestamp now)
    /\ field d "uid" = Some (VString (Auth.uid user))
    /\ field d "email" = Some (VString (orEmpty (Auth.email user)))
    /\ field d "displayName" = Some (VString (orEmpty (Auth.displayName user)))
    /\ field d "photoURL" = Some (VString (orEmpty (Auth.photoURL user)))
    /\ field d "createdAt" = field old "createdAt"
    /\ forall k,
         ~ In k ["uid"; "email"; "displayName"; "photoURL"; "lastLogin"; "loginCount"]%string ->
         field d k = field old k.
Proof.
  intros Hget Hset Hold. rewrite (@sync_existing access user Hget Hset now store old Hold).
  eexists. split; [reflexivity|]. split; [apply put_same|].
  split; [|split; [|split; [|split; [|split; [|split; [|split]]]]]];
    try (rewrite field_merged; reflexivity).
  - rewrite field_merged. cbn.
    destruct (field old "loginCount") as [[ | count | | ]|]; reflexivity.
  - intros k Hk. rewrite field_merged.
    replace (given _ k) with (@None FieldValue); [reflexivity|].
    symmetry. cbn [given baseData app].
    repeat match goal with
           | |- context [String.eqb ?a k] =>
               let E := fresh "E" in
               destruct (String.eqb a k) eqn:E;
               [apply String.eqb_eq in E; subst k; exfalso; apply Hk;
                cbn; tauto |]
           end.
    reflexivity.
Qed.

Lemma syncUserProfile_returning_witness :
  exists d,
    fst (syncUserProfile openAccess 20 alice legacyStore) = Resolved tt
    /\ snd (syncUserProfile openAccess 20 alice legacyStore) (Auth.uid alice) = Some d
    /\ field d "loginCount" = Some (VNumber 1)
    /\ field d "lastLogin" = Some (VTimestamp 20)
    /\ field d "uid" = Some (VString (Auth.uid alice))
    /\ field d "email" = Some (VString (orEmpty (Auth.email alice)))
    /\ field d "displayName" = Some (VString (orEmpty (Auth.displayName alice)))
    /\ field d "photoURL" = Some (VString (orEmpty (Auth.photoURL alice)))
    /\ field d "createdAt" = Some (VTimestamp 5)
    /\ forall k,
         ~ In k ["uid"; "email"; "displayName"; "photoURL"; "lastLogin"; "loginCount"]%string ->
         field d k
         = field [("name"%string, VString (js "Alice"));
                  ("createdAt"%string, VTimestamp 5)] k.
Proof.
  apply (@syncUserProfile_returning openAccess 20%Z alice legacyStore
           [("name"%string, VString (js "Alice")); ("createdAt"%string, VTimestamp 5)]);
    reflexivity.
Defined.

(** X17: [loginCount] counts the logins: after the logins of a new user at
    the server times [first :: later], with no failure, the document has
    [loginCount] equal to their number, [createdAt] at the first time and
    [lastLogin] at the last one. *)
Theorem syncAll_counts_logins
  (access : Access) (first : Z) (later : list Z) (user : Auth.User) (store : Store) :
  getDocError access (Auth.uid user) = None ->
  setDocError access (Auth.uid user) = None ->
  store (Auth.uid user) = None ->
  exists d,
    syncAll access (first :: later) user store (Auth.uid user) = Some d
    /\ field d "loginCount" = Some (VNumber (Z.of_nat (length (first :: later))))
    /\ field d "createdAt" = Some (VTimestamp first)
    /\ field d "lastLogin" = Some (VTimestamp (last (first :: later) 0%Z)).
Proof.
  intros Hget Hset Hnew.
  destruct (@syncAll_new access user Hget Hset first later store Hnew)
    as (d & Hd & Hcount & Hcreated & Hlast & _).
  exists d. auto.
Qed.

Lemma syncAll_counts_logins_witness :
  exists d,
    syncAll openAccess [10; 20; 30]%Z alice emptyStore (Auth.uid alice) = Some d
    /\ field d "loginCount" = Some (VNumber (Z.of_nat (length [10; 20; 30]%Z)))
    /\ field d "createdAt" = Some (VTimestamp 10)
    /\ field d "lastLogin" = Some (VTimestamp (last [10; 20; 30]%Z 0%Z)).
Proof.
  apply (@syncAll_counts_logins openAccess 10%Z [20; 30]%Z alice emptyStore);
    reflexivity.
Defined.

(** X18: a failing sync writes nothing, and reports the failure unless it
    is a permission-denied error, which is dropped: whether [getDoc] or
    [setDoc] fails, the store is as before, and the promise resolves for
    permission-denied and rejects with the error otherwise. *)
Theorem syncUserProfile_failure
  (access : Access) (now : Z) (user : Auth.User) (store : Store) (e : Error) :
  getDocError access (Auth.uid user) = Some e
  \/ (getDocError access (Auth.uid user) = None
      /\ setDocError access (Auth.uid user) = Some e) ->
  syncUserProfile access now user store
  = (match e with
     | FirebaseError code =>
         if String.eqb code "permission-denied" then Resolved tt else Rejected e
     | OtherError => Rejected e
     end,
     store).
Proof.
  intros [Hget | [Hget Hset]]; unfold syncUserProfile, trySync; cbv zeta;
    rewrite Hget.
  - destruct e as [code|]; [|reflexivity].
    now destruct (String.eqb code "permission-denied").
  - destruct (store (Auth.uid user)); rewrite Hset;
      (destruct e as [code|]; [|reflexivity]);
      now destruct (String.eqb code "permission-denied").
Qed.

Lemma syncUserProfile_failure_witness :
  syncUserProfile readOnlyAccess 10 alice emptyStore = (Resolved tt, emptyStore).
Proof.
  apply (@syncUserProfile_failure readOnlyAccess 10%Z alice emptyStore
           (FirebaseError "permission-denied")).
  right. split; reflexivity.
Defined.

(** X19: a sync touches no document but the user's own, whatever its
    outcome. *)
Theorem syncUserProfile_other_documents
  (access : Access) (now : Z) (user : Auth.User) (store : Store) (id : jsstring) :
  id <> Auth.uid user ->
  snd (syncUserProfile access now user store) id = store id.
Proof.
  intros Hid. unfold syncUserProfile, trySync. cbv zeta.
  assert (Hput : forall d, put (Auth.uid user) d store id = store id)
    by (intros d; apply put_other; congruence).
  destruct (getDocError access (Auth.uid user)) as [[code|]|].
  - now destruct (String.eqb code "permission-denied").
  - reflexivity.
  - destruct (store (Auth.uid user));
      destruct (setDocError access (Auth.uid user)) as [[code|]|]; cbn [snd];
      try reflexivity; try apply Hput;
      now destruct (String.eqb code "permission-denied").
Qed.

Lemma syncUserProfile_other_documents_witness :
  snd (syncUserProfile openAccess 20 alice legacyStore) (js "u2") = legacyStore (js "u2").
Proof.
  apply (@syncUserProfile_other_documents openAccess 20%Z alice legacyStore (js "u2")).
  vm_compute. discriminate.
Defined.

(** ** The admin page *)

Section AdminPage.

Variable isAdmin : option jsstring -> bool.

Lemma guarded_step (st : Admin.State) (ev : Admin.Event) :
  Admin.guarded isAdmin st -> Admin.guarded isAdmin (Admin.step isAdmin st ev).
Proof.
  intros Hst. destruct ev as [currentUser | docs | e]; cbn [Admin.step].
  - destruct (Admin.admin isAdmin currentUser) eqn:E; cbn [negb].
    + right. exact E.
    + left. split; reflexivity.
  - destruct (Admin.listening st) eqn:El; [|exact Hst].
    destruct Hst as [[_ Hl] | Hadmin]; [congruence|]. right. exact Hadmin.
  - destruct (Admin.listening st) eqn:El; [|exact Hst].
    left. split; reflexivity.
Qed.

Lemma guarded_run (events : list Admin.Event) :
  forall st,
    Admin.guarded isAdmin st ->
    Admin.guarded isAdmin (fold_left (Admin.step isAdmin) events st).
Proof.
  induction events as [|ev events IH]; intros st Hst; [exact Hst|].
  apply IH, guarded_step, Hst.
Qed.

End AdminPage.

(** X20: whatever the sign-ins, sign-outs, snapshots and listener errors,
    the admin page holds user rows and keeps its listener on the [users]
    collection only while an admin is signed in, and it renders the
    dashboard only for an admin, with the rows it holds. *)
Theorem admin_rows_only_for_admin
  (isAdmin : option jsstring -> bool) (events : list Admin.Event) :
  ((Admin.users (Admin.run isAdmin events) = []
    /\ Admin.listening (Admin.run isAdmin events) = false)
   \/ Admin.admin isAdmin (Admin.user (Admin.run isAdmin events)) = true)
  /\ match Admin.view isAdmin (Admin.run isAdmin events) with
     | Admin.Dashboard rows =>
         Admin.admin isAdmin (Admin.user (Admin.run isAdmin events)) = true
         /\ rows = Admin.users (Admin.run isAdmin events)
     | _ => True
     end.
Proof.
  split.
  - apply (@guarded_run isAdmin events Admin.initial). left. split; reflexivity.
  - unfold Admin.view. destruct (Admin.loading _); [exact I|].
    destruct (Admin.admin isAdmin _); cbn [negb]; [split; reflexivity | exact I].
Qed.

(** X21: the row the admin page shows for a profile written by
    [syncUserProfile]: after the logins of a new user at [first :: later],
    the row has the user's uid, email, name and photo (empty where null),
    the number of logins as [loginCount], the first time as [createdAt] and
    the last one as [lastLogin]. *)
Theorem toUserLog_of_synced_profile
  (access : Access) (first : Z) (later : list Z) (user : Auth.User) (store : Store) :
  getDocError access (Auth.uid user) = None ->
  setDocError access (Auth.uid user) = None ->
  store (Auth.uid user) = None ->
  exists d,
    syncAll access (first :: later) user store (Auth.uid user) = Some d
    /\ Admin.toUserLog (Auth.uid user, d)
       = {| Admin.uid := Auth.uid user;
            Admin.email := orEmpty (Auth.email user);
            Admin.displayName := orEmpty (Auth.displayName user);
            Admin.photoURL := orEmpty (Auth.photoURL user);
            Admin.lastLogin := VTimestamp (last (first :: later) 0%Z);
            Admin.loginCount := Z.of_nat (length (first :: later));
            Admin.createdAt := VTimestamp first |}.
Proof.
  intros Hget Hset Hnew.
  destruct (@syncAll_new access user Hget Hset first later store Hnew)
    as (d & Hd & Hcount & Hcreated & Hlast & Huid & Hemail & Hname & Hphoto).
  exists d. split; [exact Hd|].
  unfold Admin.toUserLog. cbn [fst snd].
  rewrite Hcount, Hcreated, Hlast, Hemail, Hname, Hphoto. reflexivity.
Qed.

Lemma toUserLog_of_synced_profile_witness :
  exists d,
    syncAll openAccess [10; 20]%Z alice emptyStore (Auth.uid alice) = Some d
    /\ Admin.toUserLog (Auth.uid alice, d)
       = {| Admin.uid := js "u1";
            Admin.email := js "alice@example.com";
            Admin.displayName := [];
            Admin.photoURL := [];
            Admin.lastLogin := VTimestamp 20;
            Admin.loginCount := 2;
            Admin.createdAt := VTimestamp 10 |}.
Proof.
  apply (@toUserLog_of_synced_profile openAccess 10%Z [20%Z] alice emptyStore);
    reflexivity.
Defined.
